(** * Water consumption control (sistema.py)

    A shallow embedding of the domain classes of [sistema.py]: [Consumo],
    [Usuario] / [UsuarioComercial], the [Alerta] family and
    [GerenciadorConsumo], followed by the properties of the reporting and
    alert logic.

    Modelling choices.
    - Python numbers (litres, thresholds, counts stored in a dict) are exact
      rationals [Q]; [>] and [<] are decided through [Qcompare].  Rounding
      and the non-finite values of IEEE floats are outside the model.
    - Code that can raise ([max] / [min] of an empty list, [/] by zero)
      returns [option]; [None] stands for the exception.
    - A [dict] with string keys is a [gmap string Q].
    - Two builtins of the language are parameters of the model: the text an
      f-string produces for a number ([fmt]) and [str.lower] ([lower]).
    - The interactive menu ([SistemaMenu]) runs on a state that holds the
      manager, the lines still to be read, what has been written and the
      clock; [int], [float], [strftime] and the clock are parameters.
      The loop of [executar] takes a number of turns it may make. *)

From Stdlib Require Import QArith Lqa Floats.
From stdpp Require Import gmap strings list fin_maps pretty.

(** ** Builtins of the language *)

(** [a > b] and [a < b] on numbers. *)
Definition Qgtb (a b : Q) : bool :=
  match (a ?= b)%Q with Gt => true | _ => false end.

Definition Qltb (a b : Q) : bool :=
  match (a ?= b)%Q with Lt => true | _ => false end.

(** [sum(xs)]: a left fold that starts from [0]. *)
Definition soma (xs : list Q) : Q := fold_left Qplus xs 0%Q.

(** [len(xs)], as a number. *)
Definition len {A} (xs : list A) : Q := inject_Z (Z.of_nat (length xs)).

(** [a / b]; [ZeroDivisionError] is [None]. *)
Definition py_div (a b : Q) : option Q :=
  if Qeq_bool b 0 then None else Some (a / b)%Q.

(** [max(xs)]: the running maximum is replaced only by a strictly greater
    item; [ValueError] on the empty list is [None]. *)
Definition py_max (xs : list Q) : option Q :=
  match xs with
  | [] => None
  | x :: r => Some (fold_left (fun m item => if Qgtb item m then item else m) r x)
  end.

(** [min(xs)], symmetrically. *)
Definition py_min (xs : list Q) : option Q :=
  match xs with
  | [] => None
  | x :: r => Some (fold_left (fun m item => if Qltb item m then item else m) r x)
  end.

(** Truth value of a string: only the empty string is false. *)
Definition truthy (s : string) : bool :=
  match s with EmptyString => false | String _ _ => true end.

(** ** Consumo *)

Record Consumo := mkConsumo {
  valor : Q;   (* litres *)
  data : Z     (* time of the record, as a timestamp *)
}.

(** [Consumo(valor, data=None)]: a missing date becomes the current time
    [agora]. *)
Definition novo_Consumo (agora : Z) (valor : Q) (data : option Z) : Consumo :=
  mkConsumo valor (default agora data).

(** ** Pessoa, Usuario, UsuarioComercial *)

(** The dynamic class of a user object; a commercial user carries its CNPJ. *)
Inductive Classe :=
  | ClasseUsuario
  | ClasseUsuarioComercial (cnpj : string).

Record Usuario := mkUsuario {
  nome : string;
  tipo : string;
  consumos : list Consumo;
  classe : Classe
}.

(** [Usuario(nome, tipo="Residencial")]. *)
Definition novo_Usuario (nome : string) (tipo : option string) : Usuario :=
  mkUsuario nome (default "Residencial" tipo) [] ClasseUsuario.

(** [UsuarioComercial(nome, cnpj)]. *)
Definition novo_UsuarioComercial (nome cnpj : string) : Usuario :=
  mkUsuario nome "Comercial" [] (ClasseUsuarioComercial cnpj).

Definition adicionar_consumo (u : Usuario) (consumo : Consumo) : Usuario :=
  mkUsuario (nome u) (tipo u) (consumos u ++ [consumo]) (classe u).

(** [exibir_info], dispatched on the class of the object. *)
Definition exibir_info (u : Usuario) : string :=
  match classe u with
  | ClasseUsuario =>
      "Usuário: " +:+ nome u +:+ " | Tipo: " +:+ tipo u
  | ClasseUsuarioComercial cnpj =>
      "Empresa: " +:+ nome u +:+ " | CNPJ: " +:+ cnpj +:+ " | Tipo: " +:+ tipo u
  end.

Definition calcular_total (u : Usuario) : Q :=
  soma (map valor (consumos u)).

Definition obter_estatisticas (u : Usuario) : option (gmap string Q) :=
  if (length (consumos u) =? 0)%nat then
    Some (<["total" := 0%Q]> (<["media" := 0%Q]>
         (<["quantidade_registros" := 0%Q]> (<["maior_consumo" := 0%Q]>
         (<["menor_consumo" := 0%Q]> ∅)))))
  else
    let valores := map valor (consumos u) in
    media ← py_div (soma valores) (len valores);
    maior ← py_max valores;
    menor ← py_min valores;
    Some (<["total" := soma valores]> (<["media" := media]>
         (<["quantidade_registros" := len valores]> (<["maior_consumo" := maior]>
         (<["menor_consumo" := menor]> ∅))))).

(** The methods of a user object as calls on its state: each call returns
    its result and the state it leaves. *)
Inductive Metodo :=
  | MAdicionarConsumo (consumo : Consumo)
  | MExibirInfo
  | MCalcularTotal
  | MObterEstatisticas
  | MNome
  | MTipo
  | MConsumos.

Inductive Resultado :=
  | RNone
  | RTexto (s : string)
  | RNumero (q : Q)
  | RDict (d : gmap string Q)
  | RConsumos (cs : list Consumo).

(** [None] is an exception escaping the call. *)
Definition chamar (m : Metodo) (u : Usuario) : option (Resultado * Usuario) :=
  match m with
  | MAdicionarConsumo c => Some (RNone, adicionar_consumo u c)
  | MExibirInfo => Some (RTexto (exibir_info u), u)
  | MCalcularTotal => Some (RNumero (calcular_total u), u)
  | MObterEstatisticas => d ← obter_estatisticas u; Some (RDict d, u)
  | MNome => Some (RTexto (nome u), u)
  | MTipo => Some (RTexto (tipo u), u)
  | MConsumos => Some (RConsumos (consumos u), u)
  end.

(** A sequence of calls on one object, results dropped. *)
Fixpoint chamar_todos (ms : list Metodo) (u : Usuario) : option Usuario :=
  match ms with
  | [] => Some u
  | m :: ms' => r ← chamar m u; chamar_todos ms' r.2
  end.

(** ** Alerta and GerenciadorConsumo *)

Inductive Alerta :=
  | AlertaSimples (limite : Q)
  | AlertaCritico (limite : Q).

Definition limite_de (a : Alerta) : Q :=
  match a with AlertaSimples l | AlertaCritico l => l end.

Record GerenciadorConsumo := mkGerenciador {
  usuarios : list Usuario;
  alertas : list Alerta
}.

Definition novo_GerenciadorConsumo : GerenciadorConsumo :=
  mkGerenciador [] [AlertaSimples 200; AlertaCritico 200].

Definition adicionar_usuario (g : GerenciadorConsumo) (usuario : Usuario)
  : GerenciadorConsumo :=
  mkGerenciador (usuarios g ++ [usuario]) (alertas g).

Definition listar_usuarios (g : GerenciadorConsumo) : list Usuario := usuarios g.

Section Modelo.

(** The text of a number inside an f-string. *)
Variable fmt : Q → string.
(** [str.lower]. *)
Variable lower : string → string.

Definition mensagem_simples (consumo limite : Q) : string :=
  "⚠️  CONSUMO ALTO: " +:+ fmt consumo +:+ "L (Limite: " +:+ fmt limite +:+ "L)".

Definition mensagem_critico (consumo limite : Q) : string :=
  "🚨 CONSUMO CRÍTICO: " +:+ fmt consumo +:+ "L (Limite: " +:+ fmt limite +:+ "L)".

(** [verificar], dispatched on the class of the alert. *)
Definition verificar (a : Alerta) (consumo : Q) : option string :=
  match a with
  | AlertaSimples limite =>
      if Qgtb consumo limite then Some (mensagem_simples consumo limite)
      else None
  | AlertaCritico limite =>
      if Qgtb consumo (limite * 1.5) then Some (mensagem_critico consumo limite)
      else None
  end.

(** One turn of the loop of [verificar_alertas]. *)
Definition passo_alerta (total : Q) (alertas_ativos : list string) (alerta : Alerta)
  : list string :=
  match verificar alerta total with
  | Some msg => if truthy msg then alertas_ativos ++ [msg] else alertas_ativos
  | None => alertas_ativos
  end.

Definition verificar_alertas (g : GerenciadorConsumo) (usuario : Usuario)
  : list string :=
  let total := calcular_total usuario in
  fold_left (passo_alerta total) (alertas g) [].

(** [buscar_usuario]: the loop returns at the first match. *)
Fixpoint buscar_em (us : list Usuario) (nome_buscado : string) : option Usuario :=
  match us with
  | [] => None
  | usuario :: resto =>
      if String.eqb (lower (nome usuario)) (lower nome_buscado) then Some usuario
      else buscar_em resto nome_buscado
  end.

Definition buscar_usuario (g : GerenciadorConsumo) (nome_buscado : string)
  : option Usuario :=
  buscar_em (usuarios g) nome_buscado.

(** The condition of the generator in [gerar_relatorio_geral]:
    [len(self.verificar_alertas(u)) > 0]. *)
Definition tem_alerta (g : GerenciadorConsumo) (u : Usuario) : bool :=
  (0 <? length (verificar_alertas g u))%nat.

Definition gerar_relatorio_geral (g : GerenciadorConsumo) : option (gmap string Q) :=
  if (length (usuarios g) =? 0)%nat then
    Some (<["total_usuarios" := 0%Q]> (<["consumo_total_sistema" := 0%Q]>
         (<["media_por_usuario" := 0%Q]> ∅)))
  else
    let consumo_total := soma (map calcular_total (usuarios g)) in
    media ← py_div consumo_total (len (usuarios g));
    Some (<["total_usuarios" := len (usuarios g)]>
         (<["consumo_total_sistema" := consumo_total]>
         (<["media_por_usuario" := media]>
         (<["usuarios_com_alerta" :=
              soma (map (fun _ => 1%Q) (List.filter (tem_alerta g) (usuarios g)))]>
          ∅)))).

End Modelo.

(** ** The interactive menu: SistemaMenu

    The menu reads lines from the console and prints to it.  A run is a
    function on a state that holds what the program can see or change: the
    manager of the menu object, the lines still to be read, what has been
    written, the number of clock readings made, and the local variable
    [opcao] of [executar].  An exception ends a command with [inl].

    Every user object of the menu is created by one of the two registration
    commands and stored once, so the in-place [adicionar_consumo] on
    [usuarios[indice]] is the update of one position of the list. *)

Inductive Excecao :=
  | ValueError
  | EOFError
  | KeyError
  | IndexError
  | FalhaDeCalculo.  (* a failed [max], [min] or [/] of the domain classes *)

#[global] Instance Excecao_eq_dec : EqDecision Excecao.
Proof. solve_decision. Defined.

(** What reaches the console: a printed line, or the prompt of an [input]. *)
Inductive Saida :=
  | Linha (s : string)
  | Pergunta (s : string).

Record Estado := mkEstado {
  gerenciador : GerenciadorConsumo;
  entrada : list string;
  saida : list Saida;
  relogio : nat;
  opcao : Z
}.

Definition Cmd (A : Type) : Type := Estado → (Excecao + A) * Estado.

Definition ret {A} (a : A) : Cmd A := λ e, (inr a, e).

Definition bind {A B} (m : Cmd A) (k : A → Cmd B) : Cmd B :=
  λ e, match m e with
       | (inr a, e') => k a e'
       | (inl x, e') => (inl x, e')
       end.

Definition raise {A} (x : Excecao) : Cmd A := λ e, (inl x, e).

(** [try: m except x: h]. *)
Definition try_except {A} (m : Cmd A) (x : Excecao) (h : Cmd A) : Cmd A :=
  λ e, match m e with
       | (inl y, e') => if decide (y = x) then h e' else (inl y, e')
       | r => r
       end.

#[global] Instance Cmd_ret : MRet Cmd := @ret.
#[global] Instance Cmd_bind : MBind Cmd := λ A B k m, bind m k.

(** [for a in l: f(a)]. *)
Fixpoint para_cada {A} (l : list A) (f : A → Cmd unit) : Cmd unit :=
  match l with
  | [] => ret ()
  | a :: r => f a ;; para_cada r f
  end.

(** A [for] loop that updates a local variable. *)
Fixpoint para_cada_com {A S} (l : list A) (s : S) (f : S → A → Cmd S) : Cmd S :=
  match l with
  | [] => ret s
  | a :: r => s' ← f s a; para_cada_com r s' f
  end.

(** [enumerate(l)]. *)
Definition enumerate {A} (l : list A) : list (nat * A) :=
  imap (λ i a, (i, a)) l.

Definition py_print (s : string) : Cmd unit :=
  λ e, (inr (), mkEstado (gerenciador e) (entrada e) (saida e ++ [Linha s])
                         (relogio e) (opcao e)).

(** [input(prompt)]: the prompt is written, then a line is read;
    [EOFError] when there is none. *)
Definition py_input (prompt : string) : Cmd string :=
  λ e, match entrada e with
       | [] => (inl EOFError,
                mkEstado (gerenciador e) [] (saida e ++ [Pergunta prompt])
                         (relogio e) (opcao e))
       | l :: r => (inr l,
                    mkEstado (gerenciador e) r (saida e ++ [Pergunta prompt])
                             (relogio e) (opcao e))
       end.

Definition ler_gerenciador : Cmd GerenciadorConsumo :=
  λ e, (inr (gerenciador e), e).

Definition modificar_gerenciador (f : GerenciadorConsumo → GerenciadorConsumo)
  : Cmd unit :=
  λ e, (inr (), mkEstado (f (gerenciador e)) (entrada e) (saida e)
                         (relogio e) (opcao e)).

Definition atribuir_opcao (z : Z) : Cmd unit :=
  λ e, (inr (), mkEstado (gerenciador e) (entrada e) (saida e) (relogio e) z).

(** The result of a domain function that can fail. *)
Definition de_opcao {A} (o : option A) : Cmd A :=
  match o with Some a => ret a | None => raise FalhaDeCalculo end.

(** [d[k]]. *)
Definition item (d : gmap string Q) (k : string) : Cmd Q :=
  match d !! k with Some v => ret v | None => raise KeyError end.

(** [l[i]] for an index that is not negative. *)
Definition elemento {A} (l : list A) (i : nat) : Cmd A :=
  match l !! i with Some a => ret a | None => raise IndexError end.

(** The line feed character. *)
Definition nl : string := String (Ascii.ascii_of_nat 10) EmptyString.

Section Menu.

(** The text of a number inside an f-string, plain and with [:.2f]. *)
Variable fmt : Q → string.
Variable fmt2 : Q → string.
(** [strftime('%d/%m/%Y %H:%M')] of a date. *)
Variable strftime : Z → string.
(** [int(s)] and [float(s)]; [None] is [ValueError]. *)
Variable parse_int : string → option Z.
Variable parse_float : string → option Q.
(** The reading of the clock at its n-th use. *)
Variable agora : nat → Z.

Definition py_int (s : string) : Cmd Z :=
  match parse_int s with Some z => ret z | None => raise ValueError end.

Definition py_float (s : string) : Cmd Q :=
  match parse_float s with Some q => ret q | None => raise ValueError end.

Definition datetime_now : Cmd Z :=
  λ e, (inr (agora (relogio e)),
        mkEstado (gerenciador e) (entrada e) (saida e) (S (relogio e)) (opcao e)).

(** [Consumo(valor)] without a date. *)
Definition criar_Consumo (valor : Q) : Cmd Consumo :=
  t ← datetime_now; ret (novo_Consumo t valor None).

(** [Consumo.__str__]. *)
Definition str_Consumo (c : Consumo) : string :=
  fmt (valor c) +:+ "L em " +:+ strftime (data c).

Definition mostrar_menu : Cmd unit :=
  py_print (nl +:+ "=== Controle de Consumo de Água ===") ;;
  py_print "1 - Cadastrar Usuário Residencial" ;;
  py_print "2 - Cadastrar Usuário Comercial" ;;
  py_print "3 - Registrar Consumo de Água" ;;
  py_print "4 - Ver Consumo Registrado" ;;
  py_print "5 - Calcular Consumo Total" ;;
  py_print "6 - Ver Alerta de Consumo" ;;
  py_print "7 - Ver Estatísticas Detalhadas" ;;
  py_print "8 - Relatório Geral do Sistema" ;;
  py_print "9 - Sair".

Definition cadastrar_usuario_residencial : Cmd unit :=
  nome ← py_input "Nome do usuário: ";
  let usuario := novo_Usuario nome None in
  modificar_gerenciador (λ g, adicionar_usuario g usuario) ;;
  py_print (exibir_info usuario +:+ " cadastrado com sucesso!").

Definition cadastrar_usuario_comercial : Cmd unit :=
  nome ← py_input "Nome da empresa: ";
  cnpj ← py_input "CNPJ: ";
  let usuario := novo_UsuarioComercial nome cnpj in
  modificar_gerenciador (λ g, adicionar_usuario g usuario) ;;
  py_print (exibir_info usuario +:+ " cadastrado com sucesso!").

(** [usuarios[indice].adicionar_consumo(consumo)] on the list of the
    manager. *)
Definition adicionar_consumo_em (indice : nat) (consumo : Consumo)
    (g : GerenciadorConsumo) : GerenciadorConsumo :=
  mkGerenciador (alter (λ u, adicionar_consumo u consumo) indice (usuarios g))
                (alertas g).

(** The [try] block of [registrar_consumo]; [usuarios] is the list that
    [listar_usuarios] returned. *)
Definition tentar_registrar (usuarios : list Usuario) : Cmd unit :=
  linha ← py_input "Escolha o número do usuário: ";
  n ← py_int linha;
  let indice := (n - 1)%Z in
  if ((indice <? 0) || (indice >=? Z.of_nat (length usuarios)))%Z then
    py_print "Usuário inválido."
  else
    linha ← py_input "Informe o consumo em litros: ";
    valor ← py_float linha;
    if Qltb valor 0 then
      py_print "O consumo não pode ser negativo."
    else
      consumo ← criar_Consumo valor;
      modificar_gerenciador (adicionar_consumo_em (Z.to_nat indice) consumo) ;;
      g ← ler_gerenciador;
      usuario ← elemento (listar_usuarios g) (Z.to_nat indice);
      py_print ("Consumo de " +:+ fmt valor +:+ "L registrado para "
                +:+ nome usuario +:+ ".").

Definition registrar_consumo : Cmd unit :=
  g ← ler_gerenciador;
  let usuarios := listar_usuarios g in
  if (length usuarios =? 0)%nat then
    py_print "Nenhum usuário cadastrado. Cadastre um usuário primeiro."
  else
    py_print (nl +:+ "Usuários disponíveis:") ;;
    para_cada (enumerate usuarios) (λ '(i, usuario),
      py_print (pretty (i + 1)%nat +:+ " - " +:+ exibir_info usuario));;
    try_except (tentar_registrar usuarios) ValueError
      (py_print "Erro: Digite um valor numérico válido.").

Definition ver_consumo : Cmd unit :=
  g ← ler_gerenciador;
  let usuarios := listar_usuarios g in
  if (length usuarios =? 0)%nat then py_print "Nenhum usuário cadastrado."
  else
    py_print (nl +:+ "Consumos registrados:") ;;
    para_cada usuarios (λ usuario,
      py_print (nl +:+ exibir_info usuario) ;;
      if (length (consumos usuario) =? 0)%nat then
        py_print "  Nenhum consumo registrado"
      else
        para_cada (consumos usuario) (λ consumo,
          py_print ("  - " +:+ str_Consumo consumo))).

Definition calcular_consumo_total : Cmd unit :=
  g ← ler_gerenciador;
  let usuarios := listar_usuarios g in
  if (length usuarios =? 0)%nat then py_print "Nenhum usuário cadastrado."
  else
    py_print (nl +:+ "Consumo total por usuário:") ;;
    para_cada usuarios (λ usuario,
      let total := calcular_total usuario in
      py_print (nome usuario +:+ ": " +:+ fmt total +:+ "L")).

Definition ver_alerta_consumo : Cmd unit :=
  g ← ler_gerenciador;
  let usuarios := listar_usuarios g in
  if (length usuarios =? 0)%nat then py_print "Nenhum usuário cadastrado."
  else
    py_print (nl +:+ "Alertas de consumo:") ;;
    tem ← para_cada_com usuarios false (λ tem usuario,
      let alertas := verificar_alertas fmt g usuario in
      match alertas with
      | [] => ret tem
      | _ :: _ =>
          py_print (nl +:+ nome usuario +:+ ":") ;;
          para_cada alertas (λ alerta, py_print ("  " +:+ alerta)) ;;
          ret true
      end);
    if negb tem then py_print "Nenhum alerta ativo. Consumo dentro do normal."
    else ret ().

Definition ver_estatisticas_detalhadas : Cmd unit :=
  g ← ler_gerenciador;
  let usuarios := listar_usuarios g in
  if (length usuarios =? 0)%nat then py_print "Nenhum usuário cadastrado."
  else
    py_print (nl +:+ "=== Estatísticas Detalhadas por Usuário ===") ;;
    para_cada usuarios (λ usuario,
      stats ← de_opcao (obter_estatisticas usuario);
      py_print (nl +:+ nome usuario +:+ ":") ;;
      total ← item stats "total";
      py_print ("  Total consumido: " +:+ fmt total +:+ "L") ;;
      media ← item stats "media";
      py_print ("  Média de consumo: " +:+ fmt2 media +:+ "L") ;;
      quantidade ← item stats "quantidade_registros";
      py_print ("  Quantidade de registros: " +:+ fmt quantidade) ;;
      quantidade ← item stats "quantidade_registros";
      if Qgtb quantidade 0 then
        maior ← item stats "maior_consumo";
        py_print ("  Maior consumo: " +:+ fmt maior +:+ "L") ;;
        menor ← item stats "menor_consumo";
        py_print ("  Menor consumo: " +:+ fmt menor +:+ "L")
      else ret ()).

Definition ver_relatorio_geral : Cmd unit :=
  g ← ler_gerenciador;
  relatorio ← de_opcao (gerar_relatorio_geral fmt g);
  py_print (nl +:+ "=== Relatório Geral do Sistema ===") ;;
  total_usuarios ← item relatorio "total_usuarios";
  py_print ("Total de usuários: " +:+ fmt total_usuarios) ;;
  consumo_total ← item relatorio "consumo_total_sistema";
  py_print ("Consumo total do sistema: " +:+ fmt consumo_total +:+ "L") ;;
  total_usuarios ← item relatorio "total_usuarios";
  if Qgtb total_usuarios 0 then
    media ← item relatorio "media_por_usuario";
    py_print ("Média de consumo por usuário: " +:+ fmt2 media +:+ "L") ;;
    com_alerta ← item relatorio "usuarios_com_alerta";
    py_print ("Usuários com alerta ativo: " +:+ fmt com_alerta)
  else ret ().

(** The [if] / [elif] chain of [executar]. *)
Definition despachar (opcao : Z) : Cmd unit :=
  if (opcao =? 1)%Z then cadastrar_usuario_residencial
  else if (opcao =? 2)%Z then cadastrar_usuario_comercial
  else if (opcao =? 3)%Z then registrar_consumo
  else if (opcao =? 4)%Z then ver_consumo
  else if (opcao =? 5)%Z then calcular_consumo_total
  else if (opcao =? 6)%Z then ver_alerta_consumo
  else if (opcao =? 7)%Z then ver_estatisticas_detalhadas
  else if (opcao =? 8)%Z then ver_relatorio_geral
  else if (opcao =? 9)%Z then py_print "Saindo do sistema..."
  else py_print "Opção inválida. Escolha entre 1 e 9.".

(** The body of the [while] loop of [executar]. *)
Definition corpo_do_laco : Cmd unit :=
  mostrar_menu ;;
  try_except
    (linha ← py_input (nl +:+ "Escolha uma opção: ");
     n ← py_int linha;
     atribuir_opcao n ;;
     despachar n)
    ValueError
    (py_print "Erro: Digite um número válido.").

(** [while opcao != 9: ...]; [None] when the loop has not ended after
    [combustivel] turns. *)
Fixpoint laco (combustivel : nat) (e : Estado)
  : option ((Excecao + unit) * Estado) :=
  if (opcao e =? 9)%Z then Some (inr (), e)
  else match combustivel with
       | O => None
       | S n =>
           match corpo_do_laco e with
           | (inr _, e') => laco n e'
           | (inl x, e') => Some (inl x, e')
           end
       end.

Definition executar (combustivel : nat) (e : Estado)
  : option ((Excecao + unit) * Estado) :=
  match atribuir_opcao 0 e with
  | (inr _, e') => laco combustivel e'
  | (inl x, e') => Some (inl x, e')
  end.

(** [menu()]: a new [SistemaMenu] with its new manager, then [executar],
    on a console that holds the lines [linhas]. *)
Definition menu (combustivel : nat) (linhas : list string)
  : option ((Excecao + unit) * Estado) :=
  executar combustivel (mkEstado novo_GerenciadorConsumo linhas [] 0 0).

End Menu.

(** ** Notions used to state the properties *)

(** The mathematical sum of a list of numbers. *)
Fixpoint somatorio (xs : list Q) : Q :=
  match xs with
  | [] => 0%Q
  | x :: r => (x + somatorio r)%Q
  end.

(** [sub] occurs in [s]. *)
Definition contem (sub s : string) : Prop :=
  ∃ antes depois, s = antes +:+ sub +:+ depois.

(** [x] is a greatest (least) element of [xs]. *)
Definition maximo_de (xs : list Q) (x : Q) : Prop :=
  x ∈ xs ∧ ∀ y, y ∈ xs → (y <= x)%Q.

Definition minimo_de (xs : list Q) (x : Q) : Prop :=
  x ∈ xs ∧ ∀ y, y ∈ xs → (x <= y)%Q.

(** The name stored in [u] matches the name asked for, case aside. *)
Definition corresponde (lower : string → string) (nome_buscado : string)
  (u : Usuario) : Prop :=
  lower (nome u) = lower nome_buscado.

(** No stored record has an amount below zero. *)
Definition sem_negativos (g : GerenciadorConsumo) : Prop :=
  ∀ u, u ∈ usuarios g → ∀ c, c ∈ consumos u → Qltb (valor c) 0 = false.

(** Every user is a [Usuario] of type "Residencial" or a
    [UsuarioComercial] of type "Comercial". *)
Definition bem_formados (g : GerenciadorConsumo) : Prop :=
  ∀ u, u ∈ usuarios g →
    (classe u = ClasseUsuario ∧ tipo u = "Residencial") ∨
    (∃ cnpj, classe u = ClasseUsuarioComercial cnpj ∧ tipo u = "Comercial").

(** [u'] is [u] with records added at the end, if any. *)
Definition mesmo_cadastro (u u' : Usuario) : Prop :=
  nome u' = nome u ∧ tipo u' = tipo u ∧ classe u' = classe u ∧
  consumos u `prefix_of` consumos u'.

(** [g'] has the policies of [g] and, position by position, the users of
    [g] with their records and possibly more; it may have more users at
    the end. *)
Definition cresce (g g' : GerenciadorConsumo) : Prop :=
  alertas g' = alertas g ∧
  ∀ i u, usuarios g !! i = Some u →
         ∃ u', usuarios g' !! i = Some u' ∧ mesmo_cadastro u u'.

(** How a state can be related to a later one of the same run. *)
Record evolui (e e' : Estado) : Prop := mkEvolui {
  evolui_cresce : cresce (gerenciador e) (gerenciador e');
  evolui_sem_negativos :
    sem_negativos (gerenciador e) → sem_negativos (gerenciador e');
  evolui_bem_formados :
    bem_formados (gerenciador e) → bem_formados (gerenciador e');
  evolui_entrada : entrada e' `suffix_of` entrada e;
  evolui_saida : saida e `prefix_of` saida e';
  evolui_relogio : (relogio e ≤ relogio e')%nat
}.

(** [e'] is [e] with more output and nothing else changed. *)
Definition so_escreve (e e' : Estado) : Prop :=
  gerenciador e' = gerenciador e ∧ entrada e' = entrada e ∧
  relogio e' = relogio e ∧ opcao e' = opcao e ∧
  saida e `prefix_of` saida e'.

(** From every state, [c] leads to a state related by [R], and an
    exception it ends with satisfies [X] there. *)
Definition respeita {A} (R : relation Estado) (X : Excecao → Estado → Prop)
    (c : Cmd A) : Prop :=
  ∀ e, R e (c e).2 ∧ ∀ x, (c e).1 = inl x → X x (c e).2.

(** The only exception is [EOFError], met with the input used up. *)
Definition so_fim_da_entrada (x : Excecao) (e : Estado) : Prop :=
  x = EOFError ∧ entrada e = [].

(** The next two lines of the input are a position [n] of the list of
    users, counted from one, and an amount [v] that is not negative;
    [resto] is the input after them. *)
Definition pode_registrar (parse_int : string → option Z)
    (parse_float : string → option Q) (e : Estado)
    (n : Z) (v : Q) (resto : list string) : Prop :=
  ∃ l1 l2, entrada e = l1 :: l2 :: resto ∧ parse_int l1 = Some n ∧
           (1 ≤ n ≤ Z.of_nat (length (usuarios (gerenciador e))))%Z ∧
           parse_float l2 = Some v ∧ Qltb v 0 = false.

(** ** The numeric code on binary64 floats

    The amounts a user types are Python floats (IEEE 754 binary64), with
    their rounding, their infinities and NaN.  This module embeds the code
    that computes with them on Rocq's primitive floats: [+], [-], [*], [/],
    [<], [<=] and [abs] are the binary64 operations, and every comparison
    with NaN is false.  A number is an [int] or a [float], as in Python:
    [sum] starts from the integer [0], the thresholds of the manager are
    the integers [200], and the lengths are integers.  An integer that
    meets a float in [+], [*] or [/] is first converted to the nearest
    double; a comparison of an integer with a float is exact.  (Python
    raises [OverflowError] on an integer beyond the doubles, where the
    conversion of this model gives an infinity; the integers of the program
    are [0], [1], [200] and lengths of lists.) *)

Module Binario64.

(** A Python number. *)
Inductive Numero :=
  | Int (z : Z)
  | Flt (f : float).

(** [float(z)]: the nearest double, ties to even. *)
Definition float_de_int (z : Z) : float :=
  SF2Prim (binary_normalize prec emax z 0 false).

(** The float operand that a number gives to [+], [*] and [/]. *)
Definition como_float (n : Numero) : float :=
  match n with Int z => float_de_int z | Flt f => f end.

(** [a + b]. *)
Definition mais (a b : Numero) : Numero :=
  match a, b with
  | Int x, Int y => Int (x + y)
  | _, _ => Flt (como_float a + como_float b)
  end.

(** [a * b] for a float [b]. *)
Definition vezes (a : Numero) (b : float) : float := (como_float a * b)%float.

(** The order of a float and an integer, on their exact values; [None]
    when the float is NaN. *)
Definition compara_float_int (f : float) (z : Z) : option comparison :=
  match Prim2SF f with
  | S754_nan => None
  | S754_infinity s => Some (if s then Lt else Gt)
  | S754_zero _ => Some (0 ?= z)%Z
  | S754_finite s m e =>
      let n := if s then Z.neg m else Z.pos m in
      Some (if (0 <=? e)%Z then (n * 2 ^ e ?= z)%Z else (n ?= z * 2 ^ (- e))%Z)
  end.

(** [a > b]. *)
Definition py_gt (a b : Numero) : bool :=
  match a, b with
  | Int x, Int y => (y <? x)%Z
  | Flt x, Flt y => (y <? x)%float
  | Flt x, Int y =>
      match compara_float_int x y with Some Gt => true | _ => false end
  | Int x, Flt y =>
      match compara_float_int y x with Some Lt => true | _ => false end
  end.

(** [a <= b]. *)
Definition py_le (a b : Numero) : bool :=
  match a, b with
  | Int x, Int y => (x <=? y)%Z
  | Flt x, Flt y => (x <=? y)%float
  | Flt x, Int y =>
      match compara_float_int x y with Some (Lt | Eq) => true | _ => false end
  | Int x, Flt y =>
      match compara_float_int y x with Some (Gt | Eq) => true | _ => false end
  end.

(** [math.isnan], false on an integer. *)
Definition e_nan (a : Numero) : bool :=
  match a with Int _ => false | Flt f => is_nan f end.

(** [sum(xs)].  The builtin adds the items to the integer [0] from left to
    right.  How the floats are added depends on the interpreter: CPython up
    to 3.11 rounds after every addition ([Sucessivo]); from 3.12 on it also
    carries the rounding errors in a second float and adds them at the end
    (Neumaier's compensated sum, [Compensado]).  The functions below take
    the variant as their first argument. *)
Inductive Somatorio := Sucessivo | Compensado.

(** The running total of the compensated sum: still an integer, or a float
    [f] with its compensation [c]. *)
Inductive Acumulador :=
  | AcInt (z : Z)
  | AcFlt (f c : float).

Definition passo_compensado (acc : Acumulador) (item : Numero) : Acumulador :=
  match acc, item with
  | AcInt z, Int w => AcInt (z + w)
  | AcInt z, Flt x => AcFlt (float_de_int z + x) 0
  | AcFlt f c, Int w => AcFlt (f + float_de_int w) c
  | AcFlt f c, Flt x =>
      let t := (f + x)%float in
      if (abs x <=? abs f)%float then AcFlt t (c + ((f - t) + x))
      else AcFlt t (c + ((x - t) + f))
  end.

(** The compensation is added when it is neither zero nor infinite nor
    NaN. *)
Definition total_compensado (acc : Acumulador) : Numero :=
  match acc with
  | AcInt z => Int z
  | AcFlt f c => Flt (if negb (c =? 0)%float && is_finite c then f + c else f)
  end.

Definition soma (s : Somatorio) (xs : list Numero) : Numero :=
  match s with
  | Sucessivo => fold_left mais xs (Int 0)
  | Compensado => total_compensado (fold_left passo_compensado xs (AcInt 0))
  end.

(** [a / n] for a length [n]; [ZeroDivisionError] is [None]. *)
Definition py_div (a : Numero) (n : Z) : option float :=
  if (n =? 0)%Z then None else Some (como_float a / float_de_int n)%float.

(** [max(xs)] and [min(xs)] on floats: the running value is replaced by an
    item that is greater (smaller) by [>] ([<]); [ValueError] on the empty
    list is [None]. *)
Definition py_max (xs : list float) : option float :=
  match xs with
  | [] => None
  | x :: r =>
      Some (fold_left (fun m item => if (m <? item)%float then item else m) r x)
  end.

Definition py_min (xs : list float) : option float :=
  match xs with
  | [] => None
  | x :: r =>
      Some (fold_left (fun m item => if (item <? m)%float then item else m) r x)
  end.

(** [x] is an element of [xs] that no element exceeds (that exceeds no
    element), by [<=] on floats. *)
Definition maximo_de (xs : list float) (x : float) : Prop :=
  x ∈ xs ∧ ∀ y, y ∈ xs → (y <=? x)%float = true.

Definition minimo_de (xs : list float) (x : float) : Prop :=
  x ∈ xs ∧ ∀ y, y ∈ xs → (x <=? y)%float = true.

(** *** [Consumo] and [Usuario]

    The amount of a record is the float that [float(input())] returned. *)
Record Consumo := mkConsumo {
  valor : float;
  data : Z
}.

Record Usuario := mkUsuario {
  nome : string;
  tipo : string;
  consumos : list Consumo;
  classe : Classe
}.

Definition novo_Usuario (nome : string) (tipo : option string) : Usuario :=
  mkUsuario nome (default "Residencial" tipo) [] ClasseUsuario.

Definition novo_UsuarioComercial (nome cnpj : string) : Usuario :=
  mkUsuario nome "Comercial" [] (ClasseUsuarioComercial cnpj).

Definition adicionar_consumo (u : Usuario) (consumo : Consumo) : Usuario :=
  mkUsuario (nome u) (tipo u) (consumos u ++ [consumo]) (classe u).

(** The amounts of the records, in order. *)
Definition valores_de (u : Usuario) : list float := map valor (consumos u).

Definition calcular_total (s : Somatorio) (u : Usuario) : Numero :=
  soma s (map Flt (valores_de u)).

Definition obter_estatisticas (s : Somatorio) (u : Usuario)
  : option (gmap string Numero) :=
  if (length (consumos u) =? 0)%nat then
    Some (<["total" := Int 0]> (<["media" := Int 0]>
         (<["quantidade_registros" := Int 0]> (<["maior_consumo" := Int 0]>
         (<["menor_consumo" := Int 0]> ∅)))))
  else
    let valores := valores_de u in
    media ← py_div (soma s (map Flt valores)) (Z.of_nat (length valores));
    maior ← py_max valores;
    menor ← py_min valores;
    Some (<["total" := soma s (map Flt valores)]> (<["media" := Flt media]>
         (<["quantidade_registros" := Int (Z.of_nat (length valores))]>
         (<["maior_consumo" := Flt maior]> (<["menor_consumo" := Flt menor]> ∅))))).

(** *** [Alerta] and [GerenciadorConsumo] *)

Inductive Alerta :=
  | AlertaSimples (limite : Numero)
  | AlertaCritico (limite : Numero).

Definition limite_de (a : Alerta) : Numero :=
  match a with AlertaSimples l | AlertaCritico l => l end.

Record GerenciadorConsumo := mkGerenciador {
  usuarios : list Usuario;
  alertas : list Alerta
}.

Definition novo_GerenciadorConsumo : GerenciadorConsumo :=
  mkGerenciador [] [AlertaSimples (Int 200); AlertaCritico (Int 200)].

Definition adicionar_usuario (g : GerenciadorConsumo) (usuario : Usuario)
  : GerenciadorConsumo :=
  mkGerenciador (usuarios g ++ [usuario]) (alertas g).

Section Modelo.

Variable s : Somatorio.

(** The text of a number inside an f-string. *)
Variable fmt : Numero → string.

Definition mensagem_simples (consumo limite : Numero) : string :=
  "⚠️  CONSUMO ALTO: " +:+ fmt consumo +:+ "L (Limite: " +:+ fmt limite +:+ "L)".

Definition mensagem_critico (consumo limite : Numero) : string :=
  "🚨 CONSUMO CRÍTICO: " +:+ fmt consumo +:+ "L (Limite: " +:+ fmt limite +:+ "L)".

Definition verificar (a : Alerta) (consumo : Numero) : option string :=
  match a with
  | AlertaSimples limite =>
      if py_gt consumo limite then Some (mensagem_simples consumo limite)
      else None
  | AlertaCritico limite =>
      if py_gt consumo (Flt (vezes limite 1.5))
      then Some (mensagem_critico consumo limite)
      else None
  end.

Definition passo_alerta (total : Numero) (alertas_ativos : list string)
    (alerta : Alerta) : list string :=
  match verificar alerta total with
  | Some msg => if truthy msg then alertas_ativos ++ [msg] else alertas_ativos
  | None => alertas_ativos
  end.

Definition verificar_alertas (g : GerenciadorConsumo) (usuario : Usuario)
  : list string :=
  let total := calcular_total s usuario in
  fold_left (passo_alerta total) (alertas g) [].

Definition tem_alerta (g : GerenciadorConsumo) (u : Usuario) : bool :=
  (0 <? length (verificar_alertas g u))%nat.

Definition gerar_relatorio_geral (g : GerenciadorConsumo)
  : option (gmap string Numero) :=
  if (length (usuarios g) =? 0)%nat then
    Some (<["total_usuarios" := Int 0]> (<["consumo_total_sistema" := Int 0]>
         (<["media_por_usuario" := Int 0]> ∅)))
  else
    let consumo_total := soma s (map (calcular_total s) (usuarios g)) in
    media ← py_div consumo_total (Z.of_nat (length (usuarios g)));
    Some (<["total_usuarios" := Int (Z.of_nat (length (usuarios g)))]>
         (<["consumo_total_sistema" := consumo_total]>
         (<["media_por_usuario" := Flt media]>
         (<["usuarios_com_alerta" :=
              soma s (map (fun _ => Int 1)
                          (List.filter (tem_alerta g) (usuarios g)))]>
          ∅)))).

End Modelo.

End Binario64.

(** ** Concrete builtins and objects for running the model *)

(** Lower case of the ASCII letters, other bytes unchanged. *)
Definition lower_ascii_char (c : Ascii.ascii) : Ascii.ascii :=
  let n := Ascii.N_of_ascii c in
  if ((65 <=? n) && (n <=? 90))%N then Ascii.ascii_of_N (n + 32) else c.

Fixpoint lower_ascii (s : string) : string :=
  match s with
  | EmptyString => EmptyString
  | String c r => String (lower_ascii_char c) (lower_ascii r)
  end.

(** Numerator and denominator in decimal, enough to tell numbers apart. *)
Definition fmt_fracao (q : Q) : string :=
  pretty (Qnum q) +:+ "/" +:+ pretty (Z.pos (Qden q)).

Definition ana : Usuario := novo_Usuario "Ana" None.
Definition ana150 : Usuario := adicionar_consumo ana (novo_Consumo 0 150 None).
Definition ana250 : Usuario := adicionar_consumo ana150 (novo_Consumo 1 100 None).
Definition ana350 : Usuario := adicionar_consumo ana250 (novo_Consumo 2 100 None).
Definition acme : Usuario := novo_UsuarioComercial "Acme" "12.345".

Definition gerenciador_exemplo : GerenciadorConsumo :=
  adicionar_usuario
    (adicionar_usuario (adicionar_usuario novo_GerenciadorConsumo ana250) acme)
    (novo_Usuario "ANA" None).

(** Decimal numerals: digits, with an optional minus sign for [int_decimal]
    and [float_decimal]; every other text is rejected. *)
Fixpoint digitos (s : string) (acc : Z) : option Z :=
  match s with
  | EmptyString => Some acc
  | String c r =>
      let n := Z.of_N (Ascii.N_of_ascii c) in
      if ((48 <=? n) && (n <=? 57))%Z then digitos r (10 * acc + (n - 48))%Z
      else None
  end.

Definition int_decimal (s : string) : option Z :=
  match s with
  | EmptyString => None
  | String c r =>
      if (Ascii.N_of_ascii c =? 45)%N then
        match r with
        | EmptyString => None
        | _ => Z.opp <$> digitos r 0
        end
      else digitos s 0
  end.

Definition float_decimal (s : string) : option Q :=
  inject_Z <$> int_decimal s.

(** The menu on a console, with the concrete builtins. *)
Definition menu_exemplo (linhas : list string)
  : option ((Excecao + unit) * Estado) :=
  menu fmt_fracao fmt_fracao pretty int_decimal float_decimal Z.of_nat
       (S (length linhas)) linhas.

Definition sessao_exemplo : list string :=
  ["1"; "Ana"; "2"; "Acme"; "12.345"; "3"; "1"; "250"; "3"; "5"; "3"; "2"; "-4";
   "3"; "x"; "abc"; "0"; "6"; "7"; "8"; "4"; "5"; "9"].

(** A state in the middle of a session: three users, and the lines that
    record 100 litres for the first one and leave. *)
Definition estado_exemplo : Estado :=
  mkEstado gerenciador_exemplo ["3"; "1"; "100"; "9"] [] 3 0.

(** The comparison of two floats, read off their IEEE 754 specification;
    [None] when one of them is NaN. *)
Definition fcompare (x y : float) : option comparison :=
  SFcompare (Prim2SF x) (Prim2SF y).

(** The exact value of a finite float, as a rational. *)
Definition racional (f : float) : Q :=
  match Prim2SF f with
  | S754_finite s m e =>
      let n := if s then Z.neg m else Z.pos m in
      if (0 <=? e)%Z then inject_Z (n * 2 ^ e) else (n # Z.to_pos (2 ^ (- e)))
  | _ => 0
  end.

(** Users with binary64 amounts.  A float is shown by its sign, the
    integer of its significand and its binary exponent. *)
Definition fmt_float (f : float) : string :=
  match Prim2SF f with
  | S754_zero s => if s then "-0.0" else "0.0"
  | S754_infinity s => if s then "-inf" else "inf"
  | S754_nan => "nan"
  | S754_finite s m e =>
      (if s then "-" else "") +:+ pretty (Z.pos m) +:+ "p" +:+ pretty e
  end.

Definition fmt_b64 (n : Binario64.Numero) : string :=
  match n with
  | Binario64.Int z => pretty z
  | Binario64.Flt f => fmt_float f
  end.

Definition usuario_b64 (n : string) (vs : list float) : Binario64.Usuario :=
  fold_left (λ u v, Binario64.adicionar_consumo u (Binario64.mkConsumo v 0))
            vs (Binario64.novo_Usuario n None).

Definition gerenciador_b64 (us : list Binario64.Usuario)
  : Binario64.GerenciadorConsumo :=
  fold_left Binario64.adicionar_usuario us Binario64.novo_GerenciadorConsumo.

(** * Properties *)

(** ** Comparisons and sums *)

Lemma Qgtb_true (a b : Q) : Qgtb a b = true ↔ (b < a)%Q.
Proof.
  unfold Qgtb. rewrite Qgt_alt.
  destruct (a ?= b)%Q; split; intros H; congruence.
Qed.

Lemma Qgtb_false (a b : Q) : Qgtb a b = false ↔ (a <= b)%Q.
Proof.
  unfold Qgtb. rewrite Qle_alt.
  destruct (a ?= b)%Q; split; intros H; congruence.
Qed.

Lemma Qltb_true (a b : Q) : Qltb a b = true ↔ (a < b)%Q.
Proof.
  unfold Qltb. rewrite Qlt_alt.
  destruct (a ?= b)%Q; split; intros H; congruence.
Qed.

Lemma Qltb_false (a b : Q) : Qltb a b = false ↔ (b <= a)%Q.
Proof.
  split.
  - intros H. apply Qnot_lt_le. intros Hlt%Qltb_true. congruence.
  - intros H. destruct (Qltb a b) eqn:E; [|done].
    apply Qltb_true in E. by apply Qle_not_lt in H.
Qed.

(** The accumulator of [sum] holds the start value plus the items seen. *)
Lemma fold_soma (xs : list Q) (a : Q) :
  (fold_left Qplus xs a == a + somatorio xs)%Q.
Proof.
  revert a. induction xs as [|x r IH]; intros a; simpl.
  - ring.
  - rewrite IH. ring.
Qed.

Lemma soma_somatorio (xs : list Q) : (soma xs == somatorio xs)%Q.
Proof. unfold soma. rewrite fold_soma. ring. Qed.

(** ** Strings *)

Lemma append_cons (c : Ascii.ascii) (s t : string) :
  String c s +:+ t = String c (s +:+ t).
Proof. reflexivity. Qed.

Lemma append_vazio_r (s : string) : s +:+ "" = s.
Proof. induction s as [|c s IH]; [done|]. by rewrite append_cons, IH. Qed.

Lemma append_assoc (s1 s2 s3 : string) :
  (s1 +:+ s2) +:+ s3 = s1 +:+ s2 +:+ s3.
Proof.
  induction s1 as [|c s1 IH]; [done|]. by rewrite !append_cons, IH.
Qed.

Lemma contem_refl (s : string) : contem s s.
Proof. exists "", "". by rewrite append_vazio_r. Qed.

Lemma contem_esq (sub s p : string) : contem sub s → contem sub (p +:+ s).
Proof.
  intros (a & d & ->). exists (p +:+ a), d. by rewrite append_assoc.
Qed.

Lemma contem_dir (sub s p : string) : contem sub s → contem sub (s +:+ p).
Proof.
  intros (a & d & ->). exists a, (d +:+ p). by rewrite !append_assoc.
Qed.

Create HintDb contem.
#[local] Hint Resolve contem_refl contem_esq contem_dir : contem.

(** ** Alert policies *)

Lemma verificar_truthy fmt (a : Alerta) (total : Q) (msg : string) :
  verificar fmt a total = Some msg → truthy msg = true.
Proof.
  destruct a as [l|l]; simpl; intros H; case_match; by simplify_eq.
Qed.



(** The loop of [verificar_alertas] extends its accumulator with the
    messages of the policies that fire, in the order of the policies. *)
Lemma fold_passo_alerta fmt (total : Q) (als : list Alerta) (acc : list string) :
  fold_left (passo_alerta fmt total) als acc
  = acc ++ omap (λ a, verificar fmt a total) als.
Proof.
  revert acc. induction als as [|a als IH]; intros acc; simpl.
  - by rewrite app_nil_r.
  - rewrite IH. unfold passo_alerta.
    destruct (verificar fmt a total) as [msg|] eqn:E; [|done].
    rewrite (verificar_truthy _ _ _ _ E). by rewrite <- app_assoc.
Qed.

Lemma alertas_adicionar_usuario (g : GerenciadorConsumo) (u : Usuario) :
  alertas (adicionar_usuario g u) = alertas g.
Proof. reflexivity. Qed.

(** Under the default policies the result is decided by the two tests. *)
Lemma verificar_alertas_padrao fmt (g : GerenciadorConsumo) (u : Usuario) :
  alertas g = alertas novo_GerenciadorConsumo →
  verificar_alertas fmt g u
  = (if Qgtb (calcular_total u) 200
     then [mensagem_simples fmt (calcular_total u) 200] else [])
    ++ (if Qgtb (calcular_total u) (200 * 1.5)
        then [mensagem_critico fmt (calcular_total u) 200] else []).
Proof.
  intros Hal. unfold verificar_alertas. rewrite fold_passo_alerta, Hal. simpl.
  destruct (Qgtb (calcular_total u) 200);
    destruct (Qgtb (calcular_total u) (200 * 1.5)); reflexivity.
Qed.



Lemma omap_todos_None {A B} (f : A → option B) (l : list A) :
  (∀ a, a ∈ l → f a = None) → omap f l = [].
Proof.
  induction l as [|a l IH]; intros H; [done|]. simpl.
  rewrite (H a) by left. apply IH. intros b Hb. apply H. by right.
Qed.

(** C7. [verificar_alertas] evaluates every configured policy on the user's
    total, in the order of the configuration, and returns the messages of
    the policies that fire in that order; the configuration is the simple
    policy followed by the critical one, adding users does not change it,
    and when no policy fires the result is empty. *)
Theorem verificar_alertas_ordem fmt (g : GerenciadorConsumo) (u : Usuario) :
  verificar_alertas fmt g u
  = omap (λ a, verificar fmt a (calcular_total u)) (alertas g)
  ∧ alertas novo_GerenciadorConsumo = [AlertaSimples 200; AlertaCritico 200]
  ∧ (∀ u', alertas (adicionar_usuario g u') = alertas g)
  ∧ ((∀ a, a ∈ alertas g → verificar fmt a (calcular_total u) = None) →
     verificar_alertas fmt g u = []).
Proof.
  assert (verificar_alertas fmt g u
          = omap (λ a, verificar fmt a (calcular_total u)) (alertas g)) as Heq.
  { unfold verificar_alertas. by rewrite fold_passo_alerta. }
  repeat split; [done | ].
  intros Hnone. rewrite Heq. by apply omap_todos_None.
Qed.

(** C10. With the default policies the result has at most two messages,
    and the critical message is never present without the simple one: the
    critical policy fires only on totals on which the simple one fires too,
    since both have threshold 200 and [200 * 1.5 > 200]. *)
Theorem verificar_alertas_critico_com_simples fmt
    (g : GerenciadorConsumo) (u : Usuario) :
  alertas g = alertas novo_GerenciadorConsumo →
  let t := calcular_total u in
  (length (verificar_alertas fmt g u) ≤ 2)%nat ∧
  (mensagem_critico fmt t 200 ∈ verificar_alertas fmt g u →
     mensagem_simples fmt t 200 ∈ verificar_alertas fmt g u) ∧
  (is_Some (verificar fmt (AlertaCritico 200) t) →
     is_Some (verificar fmt (AlertaSimples 200) t)) ∧
  (200 * 1.5 > 200)%Q.
Proof.
  intros Hal t. rewrite (verificar_alertas_padrao fmt g u Hal). fold t.
  simpl verificar.
  assert ((200 * 1.5 > 200)%Q) as Hq by reflexivity.
  destruct (Qgtb t 200) eqn:E1; destruct (Qgtb t (200 * 1.5)) eqn:E2; simpl.
  - split; [lia | split; [intros _; left | split; done]].
  - split; [lia | split; [intros _; left | split; [|done]]].
    intros H. by apply is_Some_None in H.
  - apply Qgtb_false in E1. apply Qgtb_true in E2. exfalso. lra.
  - split; [lia | split; [|split; [|done]]].
    + intros H. inversion H.
    + intros H. by apply is_Some_None in H.
Qed.

(** ** Looking users up *)

Lemma corresponde_eqb lower (n : string) (u : Usuario) :
  String.eqb (lower (nome u)) (lower n) = true ↔ corresponde lower n u.
Proof. apply String.eqb_eq. Qed.

Lemma buscar_em_app lower (us vs : list Usuario) (n : string) :
  buscar_em lower (us ++ vs) n
  = match buscar_em lower us n with
    | Some u => Some u
    | None => buscar_em lower vs n
    end.
Proof.
  induction us as [|u us IH]; [done|]. simpl.
  destruct (String.eqb (lower (nome u)) (lower n)); [done | apply IH].
Qed.

Lemma buscar_em_None lower (us : list Usuario) (n : string) :
  buscar_em lower us n = None ↔ Forall (λ v, ¬ corresponde lower n v) us.
Proof.
  induction us as [|u us IH]; simpl.
  - split; [constructor | done].
  - destruct (String.eqb (lower (nome u)) (lower n)) eqn:E.
    + split; [done|]. intros H. inversion H as [|? ? Hu _]; subst.
      by apply corresponde_eqb in E.
    + rewrite IH. split.
      * intros H. constructor; [|done].
        intros Hc%corresponde_eqb. congruence.
      * intros H. by inversion H.
Qed.

Lemma buscar_em_Some lower (us : list Usuario) (n : string) (u : Usuario) :
  buscar_em lower us n = Some u ↔
  ∃ antes depois, us = antes ++ u :: depois ∧ corresponde lower n u ∧
                  Forall (λ v, ¬ corresponde lower n v) antes.
Proof.
  split.
  - induction us as [|v us IH]; [done|]. simpl.
    destruct (String.eqb (lower (nome v)) (lower n)) eqn:E.
    + intros [= ->]. exists [], us. repeat split; [|constructor].
      by apply corresponde_eqb.
    + intros (antes & depois & -> & Hu & Hantes)%IH.
      exists (v :: antes), depois. repeat split; [done|].
      constructor; [|done]. intros Hc%corresponde_eqb. congruence.
  - intros (antes & depois & -> & Hu & Hantes).
    rewrite buscar_em_app. apply buscar_em_None in Hantes. rewrite Hantes.
    simpl. apply corresponde_eqb in Hu. by rewrite Hu.
Qed.

(** C6. [buscar_usuario] returns the first user, in the order in which the
    users were added, whose name equals the name asked for after both are
    lower-cased, and [None] exactly when no user matches;
    [adicionar_usuario] appends without looking at the names, and a user
    that is found stays the answer after any later addition. *)
Theorem buscar_usuario_primeiro lower (g : GerenciadorConsumo) (n : string) :
  (∀ u, buscar_usuario lower g n = Some u ↔
        ∃ antes depois, usuarios g = antes ++ u :: depois ∧
                        corresponde lower n u ∧
                        Forall (λ v, ¬ corresponde lower n v) antes) ∧
  (buscar_usuario lower g n = None ↔
     Forall (λ v, ¬ corresponde lower n v) (usuarios g)) ∧
  (∀ u', usuarios (adicionar_usuario g u') = usuarios g ++ [u']) ∧
  (∀ u u', buscar_usuario lower g n = Some u →
           buscar_usuario lower (adicionar_usuario g u') n = Some u).
Proof.
  unfold buscar_usuario. split; [|split; [|split]].
  - intros u. apply buscar_em_Some.
  - apply buscar_em_None.
  - done.
  - intros u u' H. simpl. by rewrite buscar_em_app, H.
Qed.

(** ** Statistics of a user *)

Lemma len_nao_zero {A} (xs : list A) : xs ≠ [] → Qeq_bool (len xs) 0 = false.
Proof. destruct xs as [|x r]; [done|]. intros _. reflexivity. Qed.

Lemma py_div_len {A} (a : Q) (xs : list A) :
  xs ≠ [] → py_div a (len xs) = Some (a / len xs)%Q.
Proof. intros H. unfold py_div. by rewrite len_nao_zero. Qed.

(** The running maximum is an item seen so far and bounds all of them. *)
Lemma fold_max_spec (r : list Q) (x : Q) :
  let m := fold_left (λ m item, if Qgtb item m then item else m) r x in
  m ∈ x :: r ∧ (x <= m)%Q ∧ ∀ y, y ∈ r → (y <= m)%Q.
Proof.
  revert x. induction r as [|a r IH]; intros x; simpl.
  - repeat split; [left | apply Qle_refl | intros y Hy; inversion Hy].
  - specialize (IH (if Qgtb a x then a else x)). simpl in IH.
    destruct IH as (Hin & Hle & Hall).
    destruct (Qgtb a x) eqn:E.
    + apply Qgtb_true in E. repeat split.
      * by right.
      * lra.
      * intros y [-> | Hy]%elem_of_cons; [done | by apply Hall].
    + apply Qgtb_false in E. repeat split.
      * apply elem_of_cons in Hin as [Heq | Hin];
          [rewrite Heq; left | right; by right].
      * done.
      * intros y [-> | Hy]%elem_of_cons; [lra | by apply Hall].
Qed.

Lemma fold_min_spec (r : list Q) (x : Q) :
  let m := fold_left (λ m item, if Qltb item m then item else m) r x in
  m ∈ x :: r ∧ (m <= x)%Q ∧ ∀ y, y ∈ r → (m <= y)%Q.
Proof.
  revert x. induction r as [|a r IH]; intros x; simpl.
  - repeat split; [left | apply Qle_refl | intros y Hy; inversion Hy].
  - specialize (IH (if Qltb a x then a else x)). simpl in IH.
    destruct IH as (Hin & Hle & Hall).
    destruct (Qltb a x) eqn:E.
    + apply Qltb_true in E. repeat split.
      * by right.
      * lra.
      * intros y [-> | Hy]%elem_of_cons; [done | by apply Hall].
    + apply Qltb_false in E. repeat split.
      * apply elem_of_cons in Hin as [Heq | Hin];
          [rewrite Heq; left | right; by right].
      * done.
      * intros y [-> | Hy]%elem_of_cons; [lra | by apply Hall].
Qed.

Lemma py_max_spec (xs : list Q) :
  xs ≠ [] → ∃ m, py_max xs = Some m ∧ maximo_de xs m.
Proof.
  destruct xs as [|x r]; [done|]. intros _. eexists. split; [reflexivity|].
  destruct (fold_max_spec r x) as (Hin & Hle & Hall). split; [done|].
  intros y [-> | Hy]%elem_of_cons; [done | by apply Hall].
Qed.

Lemma py_min_spec (xs : list Q) :
  xs ≠ [] → ∃ m, py_min xs = Some m ∧ minimo_de xs m.
Proof.
  destruct xs as [|x r]; [done|]. intros _. eexists. split; [reflexivity|].
  destruct (fold_min_spec r x) as (Hin & Hle & Hall). split; [done|].
  intros y [-> | Hy]%elem_of_cons; [done | by apply Hall].
Qed.

Lemma obter_estatisticas_vazio (u : Usuario) :
  consumos u = [] →
  obter_estatisticas u
  = Some (<["total" := 0%Q]> (<["media" := 0%Q]>
         (<["quantidade_registros" := 0%Q]> (<["maior_consumo" := 0%Q]>
         (<["menor_consumo" := 0%Q]> ∅))))).
Proof. intros H. unfold obter_estatisticas. by rewrite H. Qed.

Lemma obter_estatisticas_nao_vazio (u : Usuario) :
  consumos u ≠ [] →
  ∃ maior menor,
    maximo_de (map valor (consumos u)) maior ∧
    minimo_de (map valor (consumos u)) menor ∧
    obter_estatisticas u
    = Some (<["total" := soma (map valor (consumos u))]>
           (<["media" := (soma (map valor (consumos u))
                          / len (map valor (consumos u)))%Q]>
           (<["quantidade_registros" := len (map valor (consumos u))]>
           (<["maior_consumo" := maior]> (<["menor_consumo" := menor]> ∅))))).
Proof.
  intros H.
  assert (map valor (consumos u) ≠ []) as Hv by by destruct (consumos u).
  destruct (py_max_spec _ Hv) as (maior & Hmax & Hmaior).
  destruct (py_min_spec _ Hv) as (menor & Hmin & Hmenor).
  exists maior, menor. split; [done | split; [done|]].
  unfold obter_estatisticas.
  destruct (consumos u) as [|c cs] eqn:E; [done|].
  change (length (c :: cs) =? 0)%nat with false. cbv iota zeta.
  rewrite (py_div_len _ _ Hv), Hmax, Hmin. reflexivity.
Qed.

Lemma obter_estatisticas_total (u : Usuario) : is_Some (obter_estatisticas u).
Proof.
  destruct (consumos u) as [|c cs] eqn:E.
  - rewrite obter_estatisticas_vazio by done. eauto.
  - destruct (obter_estatisticas_nao_vazio u) as (? & ? & _ & _ & ->);
      [by rewrite E | eauto].
Qed.


(** ** Records of a user *)

Lemma chamar_prefixo (m : Metodo) (u : Usuario) :
  ∃ res u', chamar m u = Some (res, u') ∧ consumos u `prefix_of` consumos u'.
Proof.
  destruct m; simpl; try by eauto.
  - eexists _, _. split; [reflexivity|]. simpl. by apply prefix_app_r.
  - destruct (obter_estatisticas_total u) as [d ->]. simpl. eauto.
Qed.

Lemma chamar_todos_prefixo (ms : list Metodo) (u : Usuario) :
  ∃ u', chamar_todos ms u = Some u' ∧ consumos u `prefix_of` consumos u'.
Proof.
  revert u. induction ms as [|m ms IH]; intros u; simpl; [by eauto|].
  destruct (chamar_prefixo m u) as (res & u1 & -> & H1). simpl.
  destruct (IH u1) as (u2 & -> & H2). exists u2. split; [done|].
  by etrans.
Qed.

(** C9. [adicionar_consumo] puts the record at the end of the records and
    leaves every record already stored at its position; it cannot fail;
    and after any sequence of method calls on a user the records it had
    are still there, in the same order, at the front of its records. *)
Theorem adicionar_consumo_acrescenta (u : Usuario) (c : Consumo) :
  consumos (adicionar_consumo u c) = consumos u ++ [c] ∧
  (∀ i r, consumos u !! i = Some r →
          consumos (adicionar_consumo u c) !! i = Some r) ∧
  consumos (adicionar_consumo u c) !! length (consumos u) = Some c ∧
  chamar (MAdicionarConsumo c) u = Some (RNone, adicionar_consumo u c) ∧
  (∀ m, ∃ res u', chamar m u = Some (res, u') ∧
                  consumos u `prefix_of` consumos u') ∧
  (∀ ms, ∃ u', chamar_todos ms u = Some u' ∧
               consumos u `prefix_of` consumos u').
Proof.
  split; [done|]. split; [|split; [|split; [done|split]]].
  - intros i r H. simpl. by apply lookup_app_l_Some.
  - simpl. by rewrite list_lookup_middle.
  - intros m. apply chamar_prefixo.
  - intros ms. apply chamar_todos_prefixo.
Qed.

(** ** Describing a user *)

(** C8. A user of class [Usuario] is described by the text
    "Usuário: <nome> | Tipo: <tipo>" and a commercial user by
    "Empresa: <nome> | CNPJ: <cnpj> | Tipo: <tipo>"; the description of
    a user registered as commercial contains its name, its CNPJ and the
    type "Comercial", and adding records does not change a description. *)
Theorem exibir_info_formato (u : Usuario) :
  (classe u = ClasseUsuario →
   exibir_info u = "Usuário: " +:+ nome u +:+ " | Tipo: " +:+ tipo u) ∧
  (∀ cnpj, classe u = ClasseUsuarioComercial cnpj →
   exibir_info u
   = "Empresa: " +:+ nome u +:+ " | CNPJ: " +:+ cnpj +:+ " | Tipo: " +:+ tipo u) ∧
  (∀ n cnpj,
     contem n (exibir_info (novo_UsuarioComercial n cnpj)) ∧
     contem cnpj (exibir_info (novo_UsuarioComercial n cnpj)) ∧
     contem "Comercial" (exibir_info (novo_UsuarioComercial n cnpj))) ∧
  (∀ c, exibir_info (adicionar_consumo u c) = exibir_info u).
Proof.
  unfold exibir_info. split; [|split; [|split]].
  - by intros ->.
  - by intros cnpj ->.
  - intros n cnpj. simpl. split; [|split]; auto 10 with contem.
  - done.
Qed.

(** ** System report *)

Lemma soma_uns {A} (l : list A) :
  (soma (map (λ _, 1%Q) l) == inject_Z (Z.of_nat (length l)))%Q.
Proof.
  rewrite soma_somatorio. induction l as [|a l IH]; [reflexivity|].
  cbn [map somatorio length]. rewrite IH, Nat2Z.inj_succ, <- Z.add_1_l.
  by rewrite inject_Z_plus.
Qed.



Lemma gerar_relatorio_geral_nao_vazio fmt (g : GerenciadorConsumo) :
  usuarios g ≠ [] →
  gerar_relatorio_geral fmt g
  = Some (<["total_usuarios" := len (usuarios g)]>
         (<["consumo_total_sistema" := soma (map calcular_total (usuarios g))]>
         (<["media_por_usuario" :=
              (soma (map calcular_total (usuarios g)) / len (usuarios g))%Q]>
         (<["usuarios_com_alerta" :=
              soma (map (λ _, 1%Q) (List.filter (tem_alerta fmt g) (usuarios g)))]>
          ∅)))).
Proof.
  intros H. unfold gerar_relatorio_geral.
  rewrite (py_div_len _ _ H).
  destruct (usuarios g) as [|u us]; [done | reflexivity].
Qed.


(** C5. With no user the report is returned without any division and has
    exactly three fields, the number of users, the total consumption of the
    system and the mean per user, all [0]; it has no field for the users
    with an alert. *)
Theorem gerar_relatorio_geral_sem_usuarios fmt (g : GerenciadorConsumo) :
  usuarios g = [] →
  ∃ d, gerar_relatorio_geral fmt g = Some d ∧
       d !! "total_usuarios" = Some 0%Q ∧
       d !! "consumo_total_sistema" = Some 0%Q ∧
       d !! "media_por_usuario" = Some 0%Q ∧
       d !! "usuarios_com_alerta" = None ∧
       size d = 3%nat.
Proof.
  intros H. unfold gerar_relatorio_geral. rewrite H. simpl.
  eexists. split; [reflexivity|]. by repeat split.
Qed.

(** * The properties on concrete objects *)





Lemma gerar_relatorio_geral_sem_usuarios_novo :
  ∃ d, gerar_relatorio_geral fmt_fracao novo_GerenciadorConsumo = Some d ∧
       d !! "total_usuarios" = Some 0%Q ∧
       d !! "consumo_total_sistema" = Some 0%Q ∧
       d !! "media_por_usuario" = Some 0%Q ∧
       d !! "usuarios_com_alerta" = None ∧
       size d = 3%nat.
Proof.
  apply (gerar_relatorio_geral_sem_usuarios fmt_fracao novo_GerenciadorConsumo).
  reflexivity.
Defined.

(** Two users answer to "aNa"; the one added first is returned. *)
Lemma buscar_usuario_primeiro_ana :
  buscar_usuario lower_ascii gerenciador_exemplo "aNa" = Some ana250.
Proof.
  apply (buscar_usuario_primeiro lower_ascii gerenciador_exemplo "aNa").
  exists [], [acme; novo_Usuario "ANA" None].
  split; [reflexivity|]. split; [reflexivity | constructor].
Defined.

Lemma verificar_alertas_ordem_ana150 :
  verificar_alertas fmt_fracao gerenciador_exemplo ana150 = [].
Proof.
  apply (verificar_alertas_ordem fmt_fracao gerenciador_exemplo ana150).
  intros a Ha. apply elem_of_cons in Ha as [-> | Ha]; [reflexivity|].
  apply elem_of_cons in Ha as [-> | Ha]; [reflexivity|].
  by apply elem_of_nil in Ha.
Defined.

Lemma verificar_alertas_critico_com_simples_ana350 :
  (length (verificar_alertas fmt_fracao gerenciador_exemplo ana350) ≤ 2)%nat ∧
  mensagem_simples fmt_fracao (calcular_total ana350) 200
    ∈ verificar_alertas fmt_fracao gerenciador_exemplo ana350.
Proof.
  pose proof (verificar_alertas_critico_com_simples
                fmt_fracao gerenciador_exemplo ana350 eq_refl) as (Hlen & Hin & _).
  split; [exact Hlen|]. apply Hin. vm_compute. right. left.
Defined.

Lemma exibir_info_formato_ana :
  exibir_info ana = "Usuário: Ana | Tipo: Residencial" ∧
  exibir_info acme = "Empresa: Acme | CNPJ: 12.345 | Tipo: Comercial".
Proof.
  split.
  - apply (exibir_info_formato ana). reflexivity.
  - destruct (exibir_info_formato acme) as (_ & H & _).
    apply (H "12.345"). reflexivity.
Defined.

Lemma adicionar_consumo_acrescenta_ana :
  consumos (adicionar_consumo ana150 (novo_Consumo 1 100 None)) !! 0%nat
  = Some (novo_Consumo 0 150 None).
Proof.
  apply (adicionar_consumo_acrescenta ana150 (novo_Consumo 1 100 None)).
  reflexivity.
Defined.

(** * What the code does not do *)

(** The report of a manager without users has no field for the users with
    an alert, so it is not a report with four fields equal to [0]. *)
Lemma relatorio_sem_usuarios_sem_quarto_campo :
  usuarios novo_GerenciadorConsumo = [] ∧
  ¬ ∃ d, gerar_relatorio_geral fmt_fracao novo_GerenciadorConsumo = Some d ∧
         d !! "total_usuarios" = Some 0%Q ∧
         d !! "consumo_total_sistema" = Some 0%Q ∧
         d !! "media_por_usuario" = Some 0%Q ∧
         is_Some (d !! "usuarios_com_alerta").
Proof.
  split; [reflexivity|]. intros (d & Hd & _ & _ & _ & [q Hq]).
  injection Hd as <-. vm_compute in Hq. discriminate.
Qed.

(** The descriptions start with "Usuário: " or "Empresa: " and use the
    labels "Tipo" and "CNPJ": they are not the bare texts
    "<name> | Type: <category>" and
    "<name> | BusinessId: <id> | Type: <category>", whichever language the
    labels are read in. *)
Lemma exibir_info_tem_prefixo :
  exibir_info ana ≠ "Ana | Type: Residencial" ∧
  exibir_info ana ≠ "Ana | Tipo: Residencial" ∧
  exibir_info acme ≠ "Acme | BusinessId: 12.345 | Type: Comercial" ∧
  exibir_info acme ≠ "Acme | CNPJ: 12.345 | Tipo: Comercial".
Proof. repeat split; intros H; vm_compute in H; discriminate. Qed.

(** * Further properties of the domain classes *)

(** ** Totals *)

Lemma somatorio_app (xs ys : list Q) :
  (somatorio (xs ++ ys) == somatorio xs + somatorio ys)%Q.
Proof.
  induction xs as [|x xs IH]; simpl; [ring|]. rewrite IH. ring.
Qed.

Lemma soma_snoc (xs : list Q) (x : Q) : (soma (xs ++ [x]) == soma xs + x)%Q.
Proof. rewrite !soma_somatorio, somatorio_app. simpl. ring. Qed.

Lemma calcular_total_snoc (u : Usuario) (c : Consumo) :
  (calcular_total (adicionar_consumo u c) == calcular_total u + valor c)%Q.
Proof. unfold calcular_total. simpl. rewrite map_app. apply soma_snoc. Qed.

Lemma len_cons {A} (x : A) (xs : list A) : (len (x :: xs) == 1 + len xs)%Q.
Proof.
  unfold len. cbn [length]. rewrite Nat2Z.inj_succ, <- Z.add_1_l.
  by rewrite inject_Z_plus.
Qed.

Lemma len_nao_negativo {A} (xs : list A) : (0 <= len xs)%Q.
Proof.
  unfold len. change 0%Q with (inject_Z 0). rewrite <- Zle_Qle. lia.
Qed.

Lemma len_positivo {A} (xs : list A) : xs ≠ [] → (0 < len xs)%Q.
Proof.
  destruct xs as [|x r]; [done|]. intros _. rewrite len_cons.
  pose proof (len_nao_negativo r). lra.
Qed.




(** ** Alerts as the total grows *)

Lemma verificar_monotono fmt (a : Alerta) (t t' : Q) :
  (t <= t')%Q → is_Some (verificar fmt a t) → is_Some (verificar fmt a t').
Proof.
  intros Hle. destruct a as [l|l]; cbn [verificar].
  - destruct (Qgtb t l) eqn:E; [|by intros ?%is_Some_None].
    apply Qgtb_true in E. intros _.
    assert (Qgtb t' l = true) as -> by (apply Qgtb_true; lra). eauto.
  - destruct (Qgtb t (l * 1.5)) eqn:E; [|by intros ?%is_Some_None].
    apply Qgtb_true in E. intros _.
    assert (Qgtb t' (l * 1.5) = true) as -> by (apply Qgtb_true; lra). eauto.
Qed.

Lemma length_omap_monotono {A B} (f f' : A → option B) (l : list A) :
  (∀ a, is_Some (f a) → is_Some (f' a)) →
  (length (omap f l) ≤ length (omap f' l))%nat.
Proof.
  intros H. induction l as [|a l IH]; [done|].
  change (omap f (a :: l))
    with (match f a with Some b => b :: omap f l | None => omap f l end).
  change (omap f' (a :: l))
    with (match f' a with Some b => b :: omap f' l | None => omap f' l end).
  destruct (f a) as [b|] eqn:E.
  - destruct (H a) as [b' ->]; [by rewrite E|]. cbn [length]. lia.
  - destruct (f' a); cbn [length]; lia.
Qed.

Lemma verificar_alertas_omap fmt (g : GerenciadorConsumo) (u : Usuario) :
  verificar_alertas fmt g u
  = omap (λ a, verificar fmt a (calcular_total u)) (alertas g).
Proof. unfold verificar_alertas. by rewrite fold_passo_alerta. Qed.

(** X2. A policy that fires on a total fires on every greater total; so
    adding a record with a non-negative amount never silences an alert of
    the user: every policy that fired still fires and the number of
    messages does not go down, whatever policies the manager has. *)
Theorem alertas_persistem fmt (g : GerenciadorConsumo) (u : Usuario) (c : Consumo) :
  (0 <= valor c)%Q →
  (∀ a, is_Some (verificar fmt a (calcular_total u)) →
        is_Some (verificar fmt a (calcular_total (adicionar_consumo u c)))) ∧
  (length (verificar_alertas fmt g u)
   ≤ length (verificar_alertas fmt g (adicionar_consumo u c)))%nat.
Proof.
  intros Hc.
  assert (calcular_total u <= calcular_total (adicionar_consumo u c))%Q as Hle.
  { rewrite calcular_total_snoc. lra. }
  split.
  - intros a. by apply verificar_monotono.
  - rewrite !verificar_alertas_omap. apply length_omap_monotono.
    intros a. by apply verificar_monotono.
Qed.


(** X4. A user without records raises no alert under policies whose
    thresholds are not negative. *)
Theorem sem_consumos_sem_alerta fmt (g : GerenciadorConsumo) (u : Usuario) :
  consumos u = [] →
  (∀ a, a ∈ alertas g → (0 <= limite_de a)%Q) →
  verificar_alertas fmt g u = [].
Proof.
  intros Hu Hal. rewrite verificar_alertas_omap. apply omap_todos_None.
  intros a Ha. specialize (Hal a Ha). unfold calcular_total. rewrite Hu.
  change (soma (map valor [])) with 0%Q.
  destruct a as [l|l]; cbn [verificar limite_de] in *.
  - assert (Qgtb 0 l = false) as -> by (by apply Qgtb_false). done.
  - assert (Qgtb 0 (l * 1.5) = false) as -> by (apply Qgtb_false; lra). done.
Qed.

(** ** Statistics and the total *)


(** X6. The statistics always have the same five keys, so a reader of
    any of them never meets a missing key; the count is the number of
    records. *)
Theorem obter_estatisticas_chaves (u : Usuario) :
  ∃ d, obter_estatisticas u = Some d ∧
       dom d = {[ "total"; "media"; "quantidade_registros";
                  "maior_consumo"; "menor_consumo" ]} ∧
       d !! "quantidade_registros" = Some (len (consumos u)).
Proof.
  destruct (consumos u) as [|c cs] eqn:E.
  - rewrite (obter_estatisticas_vazio u E). eexists. split; [reflexivity|].
    split; [|reflexivity]. rewrite !dom_insert_L, dom_empty_L. set_solver.
  - assert (consumos u ≠ []) as Hne by (by rewrite E).
    destruct (obter_estatisticas_nao_vazio u Hne) as (maior & menor & _ & _ & ->).
    rewrite <- E. eexists. split; [reflexivity|]. split.
    + rewrite !dom_insert_L, dom_empty_L. set_solver.
    + unfold len. rewrite length_map. reflexivity.
Qed.

(** ** The report and the users *)

Lemma gerar_relatorio_geral_vazio fmt (g : GerenciadorConsumo) :
  usuarios g = [] →
  gerar_relatorio_geral fmt g
  = Some (<["total_usuarios" := 0%Q]> (<["consumo_total_sistema" := 0%Q]>
         (<["media_por_usuario" := 0%Q]> ∅))).
Proof. intros H. unfold gerar_relatorio_geral. by rewrite H. Qed.

(** X7. The report always has the number of users, and it has the field
    of the users with an alert exactly when that number is positive, which
    is exactly when the manager has a user: a reader that looks at the
    number first never meets a missing key. *)
Theorem gerar_relatorio_geral_guarda fmt (g : GerenciadorConsumo) :
  ∃ d n, gerar_relatorio_geral fmt g = Some d ∧
         d !! "total_usuarios" = Some n ∧
         n = len (usuarios g) ∧
         (Qgtb n 0 = true ↔ usuarios g ≠ []) ∧
         (Qgtb n 0 = true ↔ is_Some (d !! "usuarios_com_alerta")) ∧
         is_Some (d !! "consumo_total_sistema") ∧
         is_Some (d !! "media_por_usuario").
Proof.
  destruct (usuarios g) as [|u us] eqn:E.
  - rewrite (gerar_relatorio_geral_vazio fmt g E). eexists _, _.
    split; [reflexivity|]. split; [reflexivity|]. split; [reflexivity|].
    split; [done|]. split; [|by split]. split; [done|].
    by intros ?%is_Some_None.
  - assert (usuarios g ≠ []) as Hne by (by rewrite E).
    rewrite (gerar_relatorio_geral_nao_vazio fmt g Hne). rewrite <- E.
    assert (Qgtb (len (usuarios g)) 0 = true) as Hpos
      by (apply Qgtb_true; by apply len_positivo).
    eexists _, _. split; [reflexivity|]. split; [reflexivity|].
    split; [reflexivity|]. split; [done|]. split; [|by split].
    split; [|done]. intros _. eexists. reflexivity.
Qed.

(** X8. The number of users with an alert that the report gives is at
    least [0] and at most the number of users it gives. *)
Theorem usuarios_com_alerta_limitado fmt (g : GerenciadorConsumo) :
  usuarios g ≠ [] →
  ∃ d n k, gerar_relatorio_geral fmt g = Some d ∧
           d !! "total_usuarios" = Some n ∧
           d !! "usuarios_com_alerta" = Some k ∧
           (0 <= k)%Q ∧ (k <= n)%Q.
Proof.
  intros H. rewrite (gerar_relatorio_geral_nao_vazio fmt g H).
  eexists _, _, _. split; [reflexivity|]. split; [reflexivity|].
  split; [reflexivity|]. rewrite soma_uns. unfold len. split.
  - change 0%Q with (inject_Z 0). rewrite <- Zle_Qle. lia.
  - rewrite <- Zle_Qle. apply Nat2Z.inj_le. apply filter_length_le.
Qed.


(** ** Looking up after adding *)

(** X10. No name is found in a new manager; a user added under a name
    that no user answers to is found under that name; a lookup under a
    name the added user does not answer to is not affected by the
    addition; the user that is found belongs to the manager; and two
    names with the same lower-case form give the same answer. *)
Theorem buscar_usuario_apos_adicionar lower
    (g : GerenciadorConsumo) (u : Usuario) (n : string) :
  buscar_usuario lower novo_GerenciadorConsumo n = None ∧
  (buscar_usuario lower g (nome u) = None →
   buscar_usuario lower (adicionar_usuario g u) (nome u) = Some u) ∧
  (¬ corresponde lower n u →
   buscar_usuario lower (adicionar_usuario g u) n = buscar_usuario lower g n) ∧
  (∀ v, buscar_usuario lower g n = Some v → v ∈ usuarios g) ∧
  (∀ n', lower n = lower n' →
         buscar_usuario lower g n = buscar_usuario lower g n').
Proof.
  unfold buscar_usuario. split; [done|]. split; [|split; [|split]].
  - intros H. simpl. rewrite buscar_em_app, H. simpl.
    by rewrite String.eqb_refl.
  - intros H. simpl. rewrite buscar_em_app.
    destruct (buscar_em lower (usuarios g) n); [done|]. simpl.
    destruct (String.eqb (lower (nome u)) (lower n)) eqn:E; [|done].
    by apply corresponde_eqb in E.
  - intros v (antes & depois & -> & _)%buscar_em_Some.
    apply elem_of_app. right. left.
  - intros n' Hn. induction (usuarios g) as [|v vs IH]; [done|].
    simpl. rewrite Hn, IH. done.
Qed.

(** * Properties of the menu *)

(** ** Commands and relations between states *)

Lemma bind_inr {A B} (m : Cmd A) (k : A → Cmd B) (e e' : Estado) (a : A) :
  m e = (inr a, e') → bind m k e = k a e'.
Proof. intros H. unfold bind. by rewrite H. Qed.

Lemma bind_inl {A B} (m : Cmd A) (k : A → Cmd B) (e e' : Estado) (x : Excecao) :
  m e = (inl x, e') → bind m k e = (inl x, e').
Proof. intros H. unfold bind. by rewrite H. Qed.

Section Respeita.

Context (R : relation Estado) `{!PreOrder R}.

Lemma respeita_enfraquece {A} (X X' : Excecao → Estado → Prop) (c : Cmd A) :
  (∀ x e, X x e → X' x e) → respeita R X c → respeita R X' c.
Proof.
  intros HX Hc e. destruct (Hc e) as [HR Hx]. split; [done|].
  intros x Hr. by apply HX, Hx.
Qed.

Lemma respeita_ret {A} X (a : A) : respeita R X (ret a).
Proof. intros e. split; [reflexivity | done]. Qed.

Lemma respeita_raise {A} (X : Excecao → Estado → Prop) (x : Excecao) :
  (∀ e, X x e) → respeita R X (raise x : Cmd A).
Proof. intros HX e. split; [reflexivity|]. intros y [= <-]. apply HX. Qed.

Lemma respeita_bind {A B} X (m : Cmd A) (k : A → Cmd B) :
  respeita R X m →
  (∀ a, (∃ e, (m e).1 = inr a) → respeita R X (k a)) →
  respeita R X (bind m k).
Proof.
  intros Hm Hk e. destruct (Hm e) as [HR Hx].
  destruct (m e) as [[x|a] e1] eqn:E.
  - rewrite (bind_inl _ _ _ _ _ E). split; [done|]. intros y [= <-]. by apply Hx.
  - rewrite (bind_inr _ _ _ _ _ E).
    assert (respeita R X (k a)) as Hka by (apply Hk; exists e; by rewrite E).
    destruct (Hka e1) as [HR' Hx']. split; [by etrans | done].
Qed.

Lemma respeita_try {A} (X : Excecao → Estado → Prop) (m h : Cmd A) (x : Excecao) :
  respeita R (λ y e, y = x ∨ X y e) m → respeita R X h →
  respeita R X (try_except m x h).
Proof.
  intros Hm Hh e. destruct (Hm e) as [HR Hx]. unfold try_except.
  destruct (m e) as [[y|a] e1] eqn:E.
  - case_decide as Hd.
    + destruct (Hh e1) as [HR' Hx']. split; [by etrans | done].
    + split; [done|]. intros z [= <-]. by destruct (Hx y eq_refl).
  - split; [done|]. intros z Hz. discriminate Hz.
Qed.

Lemma respeita_para_cada {A} X (l : list A) (f : A → Cmd unit) :
  (∀ a, a ∈ l → respeita R X (f a)) → respeita R X (para_cada l f).
Proof.
  induction l as [|a l IH]; intros H; [apply respeita_ret|].
  apply respeita_bind; [apply H; left|].
  intros _ _. apply IH. intros b Hb. apply H. by right.
Qed.

Lemma respeita_para_cada_com {A S} X (l : list A) (s : S) (f : S → A → Cmd S) :
  (∀ s a, a ∈ l → respeita R X (f s a)) → respeita R X (para_cada_com l s f).
Proof.
  revert s. induction l as [|a l IH]; intros s H; [apply respeita_ret|].
  apply respeita_bind; [apply H; left|].
  intros s' _. apply IH. intros t b Hb. apply H. by right.
Qed.

Lemma respeita_ler_gerenciador X : respeita R X ler_gerenciador.
Proof. intros e. split; [reflexivity | done]. Qed.

Lemma respeita_de_opcao {A} X (o : option A) :
  is_Some o → respeita R X (de_opcao o).
Proof. intros [a ->]. apply respeita_ret. Qed.

Lemma respeita_item X (d : gmap string Q) (k : string) :
  is_Some (d !! k) → respeita R X (item d k).
Proof. intros [v H]. unfold item. rewrite H. apply respeita_ret. Qed.

Lemma respeita_elemento {A} X (l : list A) (i : nat) :
  is_Some (l !! i) → respeita R X (elemento l i).
Proof. intros [v H]. unfold elemento. rewrite H. apply respeita_ret. Qed.

End Respeita.

Lemma de_opcao_inr {A} (o : option A) (a : A) :
  (∃ e, (de_opcao o e).1 = inr a) → o = Some a.
Proof. intros [e H]. destruct o; simpl in H; by simplify_eq. Qed.

Lemma item_inr (d : gmap string Q) (k : string) (v : Q) :
  (∃ e, (item d k e).1 = inr v) → d !! k = Some v.
Proof.
  intros [e H]. unfold item in H. destruct (d !! k); simpl in H; by simplify_eq.
Qed.

Lemma respeita_sub {A} (R R' : relation Estado) X (c : Cmd A) :
  (∀ e e', R e e' → R' e e') → respeita R X c → respeita R' X c.
Proof. intros H Hc e. destruct (Hc e) as [HR Hx]. split; [by apply H | done]. Qed.

#[local] Instance mesmo_cadastro_preorder : PreOrder mesmo_cadastro.
Proof.
  split.
  - intros u. by repeat split.
  - intros u1 u2 u3 (H1 & H2 & H3 & H4) (H1' & H2' & H3' & H4').
    repeat split; [congruence | congruence | congruence | by etrans].
Qed.

#[local] Instance cresce_preorder : PreOrder cresce.
Proof.
  split.
  - intros g. split; [done|]. intros i u H. exists u. split; [done|reflexivity].
  - intros g1 g2 g3 [Ha H] [Ha' H']. split; [congruence|].
    intros i u Hu. destruct (H i u Hu) as (u2 & Hu2 & Hm).
    destruct (H' i u2 Hu2) as (u3 & Hu3 & Hm'). exists u3.
    split; [done | by etrans].
Qed.

#[local] Instance so_escreve_preorder : PreOrder so_escreve.
Proof.
  split.
  - intros e. by repeat split.
  - intros e1 e2 e3 (H1 & H2 & H3 & H4 & H5) (H1' & H2' & H3' & H4' & H5').
    repeat split; [congruence | congruence | congruence | congruence | by etrans].
Qed.

#[local] Instance evolui_preorder : PreOrder evolui.
Proof.
  split.
  - intros e. by split.
  - intros e1 e2 e3 [] []. split; [by etrans | auto | auto | by etrans
                                   | by etrans | by etrans].
Qed.

Lemma so_escreve_evolui (e e' : Estado) : so_escreve e e' → evolui e e'.
Proof.
  intros (Hg & He & Hr & _ & Hs). split; rewrite ?Hg, ?He, ?Hr; done.
Qed.

(** ** Commands that only write *)

Lemma py_print_so_escreve X (s : string) : respeita so_escreve X (py_print s).
Proof.
  intros e. split; [|done]. simpl. repeat split. by apply prefix_app_r.
Qed.

(** One step through a command: the rule of its head. *)
Ltac passo_so_escreve :=
  lazymatch goal with
  | |- respeita _ _ (mbind _ _) => unfold mbind, Cmd_bind
  | |- respeita _ _ (bind _ _) => apply respeita_bind; [apply _ | | intros ? ?]
  | |- respeita _ _ (ret _) => apply respeita_ret; apply _
  | |- respeita _ _ ler_gerenciador => apply respeita_ler_gerenciador; apply _
  | |- respeita _ _ (py_print _) => apply py_print_so_escreve
  | |- respeita _ _ (para_cada _ _) =>
      apply respeita_para_cada; [apply _ | intros ? ?]
  | |- respeita _ _ (para_cada_com _ _ _) =>
      apply respeita_para_cada_com; [apply _ | intros ? ? ?]
  | |- respeita _ _ (if ?b then _ else _) => destruct b eqn:?
  | |- respeita _ _ (match ?l with [] => _ | _ :: _ => _ end) => destruct l eqn:?
  end.

Lemma mostrar_menu_so_escreve X : respeita so_escreve X mostrar_menu.
Proof. unfold mostrar_menu. repeat passo_so_escreve. Qed.

Lemma ver_consumo_so_escreve X fmt strftime :
  respeita so_escreve X (ver_consumo fmt strftime).
Proof. unfold ver_consumo. repeat passo_so_escreve. Qed.

Lemma calcular_consumo_total_so_escreve X fmt :
  respeita so_escreve X (calcular_consumo_total fmt).
Proof. unfold calcular_consumo_total. repeat passo_so_escreve. Qed.

Lemma ver_alerta_consumo_so_escreve X fmt :
  respeita so_escreve X (ver_alerta_consumo fmt).
Proof. unfold ver_alerta_consumo. repeat passo_so_escreve. Qed.

(** The keys that the readers of the two dictionaries ask for are there. *)
Lemma obter_estatisticas_itens (u : Usuario) (d : gmap string Q) :
  obter_estatisticas u = Some d →
  is_Some (d !! "total") ∧ is_Some (d !! "media") ∧
  is_Some (d !! "quantidade_registros") ∧
  is_Some (d !! "maior_consumo") ∧ is_Some (d !! "menor_consumo").
Proof.
  destruct (consumos u) as [|c cs] eqn:E.
  - rewrite (obter_estatisticas_vazio u E). intros [= <-].
    repeat split; eexists; reflexivity.
  - assert (consumos u ≠ []) as Hne by (by rewrite E).
    destruct (obter_estatisticas_nao_vazio u Hne) as (maior & menor & _ & _ & ->).
    intros [= <-]. repeat split; eexists; reflexivity.
Qed.

Lemma gerar_relatorio_geral_itens fmt (g : GerenciadorConsumo) (d : gmap string Q) :
  gerar_relatorio_geral fmt g = Some d →
  is_Some (d !! "consumo_total_sistema") ∧
  ∃ n, d !! "total_usuarios" = Some n ∧
       (Qgtb n 0 = true →
        is_Some (d !! "media_por_usuario") ∧ is_Some (d !! "usuarios_com_alerta")).
Proof.
  destruct (usuarios g) as [|u us] eqn:E.
  - rewrite (gerar_relatorio_geral_vazio fmt g E). intros [= <-].
    split; [eexists; reflexivity|]. eexists. split; [reflexivity|]. done.
  - assert (usuarios g ≠ []) as Hne by (by rewrite E).
    rewrite (gerar_relatorio_geral_nao_vazio fmt g Hne). intros [= <-].
    split; [eexists; reflexivity|]. eexists. split; [reflexivity|].
    intros _. split; eexists; reflexivity.
Qed.

Lemma gerar_relatorio_geral_total fmt (g : GerenciadorConsumo) :
  is_Some (gerar_relatorio_geral fmt g).
Proof.
  destruct (usuarios g) as [|u us] eqn:E.
  - rewrite (gerar_relatorio_geral_vazio fmt g E). eauto.
  - rewrite (gerar_relatorio_geral_nao_vazio fmt g); [eauto | by rewrite E].
Qed.

Lemma ver_estatisticas_detalhadas_so_escreve X fmt fmt2 :
  respeita so_escreve X (ver_estatisticas_detalhadas fmt fmt2).
Proof.
  unfold ver_estatisticas_detalhadas. repeat passo_so_escreve.
  all: try (apply respeita_de_opcao; [apply _ | apply obter_estatisticas_total]).
  all: match goal with
       | H : ∃ e, (de_opcao (obter_estatisticas _) e).1 = inr _ |- _ =>
           apply de_opcao_inr, obter_estatisticas_itens in H as (? & ? & ? & ? & ?)
       end.
  all: by apply respeita_item; [apply _|].
Qed.

Lemma ver_relatorio_geral_so_escreve X fmt fmt2 :
  respeita so_escreve X (ver_relatorio_geral fmt fmt2).
Proof.
  unfold ver_relatorio_geral. repeat passo_so_escreve.
  all: try (apply respeita_de_opcao; [apply _ | apply gerar_relatorio_geral_total]).
  all: match goal with
       | H : ∃ e, (de_opcao (gerar_relatorio_geral _ _) e).1 = inr _ |- _ =>
           apply de_opcao_inr, gerar_relatorio_geral_itens in H
             as (Ht & n & Hn & Hpos)
       end.
  all: try (apply respeita_item; [apply _ | by rewrite ?Hn]).
  all: match goal with
       | H : ∃ e, (item _ "total_usuarios" e).1 = inr ?v, Hb : Qgtb ?v 0 = true |- _ =>
           apply item_inr in H; rewrite Hn in H; injection H as <-;
           destruct (Hpos Hb) as [Hm Hk]
       end.
  all: by apply respeita_item; [apply _|].
Qed.

(** ** Changes of the manager *)

Lemma sem_negativos_Forall (g : GerenciadorConsumo) :
  sem_negativos g ↔
  Forall (λ u, Forall (λ c, Qltb (valor c) 0 = false) (consumos u)) (usuarios g).
Proof.
  unfold sem_negativos. rewrite Forall_forall.
  split; intros H u Hu; [apply Forall_forall | ]; intros c Hc.
  - by apply (H u Hu).
  - specialize (H u Hu). rewrite Forall_forall in H. by apply H.
Qed.

Lemma bem_formados_Forall (g : GerenciadorConsumo) :
  bem_formados g ↔
  Forall (λ u, (classe u = ClasseUsuario ∧ tipo u = "Residencial") ∨
               (∃ cnpj, classe u = ClasseUsuarioComercial cnpj ∧
                        tipo u = "Comercial")) (usuarios g).
Proof. unfold bem_formados. by rewrite Forall_forall. Qed.

Lemma adicionar_usuario_cresce (g : GerenciadorConsumo) (u : Usuario) :
  cresce g (adicionar_usuario g u).
Proof.
  split; [done|]. intros i v Hv. exists v. split; [|reflexivity].
  simpl. by apply lookup_app_l_Some.
Qed.

Lemma adicionar_usuario_sem_negativos (g : GerenciadorConsumo) (u : Usuario) :
  consumos u = [] → sem_negativos g → sem_negativos (adicionar_usuario g u).
Proof.
  rewrite !sem_negativos_Forall. intros Hu H. simpl.
  apply Forall_app. split; [done|]. constructor; [|constructor].
  rewrite Hu. constructor.
Qed.

Lemma adicionar_consumo_em_cresce (i : nat) (c : Consumo) (g : GerenciadorConsumo) :
  cresce g (adicionar_consumo_em i c g).
Proof.
  split; [done|]. intros j u Hu. simpl. rewrite list_lookup_alter.
  case_decide as Hij.
  - subst j. rewrite Hu. simpl. eexists. split; [reflexivity|].
    repeat split. simpl. by apply prefix_app_r.
  - exists u. split; [done | reflexivity].
Qed.

Lemma adicionar_consumo_em_sem_negativos
    (i : nat) (c : Consumo) (g : GerenciadorConsumo) :
  Qltb (valor c) 0 = false →
  sem_negativos g → sem_negativos (adicionar_consumo_em i c g).
Proof.
  rewrite !sem_negativos_Forall. intros Hc H. simpl.
  apply Forall_alter; [done|]. intros u _ Hu. simpl.
  apply Forall_app. split; [done|]. by constructor.
Qed.

Lemma adicionar_consumo_em_bem_formados
    (i : nat) (c : Consumo) (g : GerenciadorConsumo) :
  bem_formados g → bem_formados (adicionar_consumo_em i c g).
Proof.
  rewrite !bem_formados_Forall. intros H. simpl.
  apply Forall_alter; [done|]. by intros u _ Hu.
Qed.

Lemma adicionar_usuario_bem_formados (g : GerenciadorConsumo) (u : Usuario) :
  (classe u = ClasseUsuario ∧ tipo u = "Residencial") ∨
  (∃ cnpj, classe u = ClasseUsuarioComercial cnpj ∧ tipo u = "Comercial") →
  bem_formados g → bem_formados (adicionar_usuario g u).
Proof.
  rewrite !bem_formados_Forall. intros Hu H. simpl.
  apply Forall_app. split; [done|]. by constructor.
Qed.

(** ** Commands that read or change the state *)

Lemma py_print_evolui X (s : string) : respeita evolui X (py_print s).
Proof.
  apply (respeita_sub so_escreve); [apply so_escreve_evolui|].
  apply py_print_so_escreve.
Qed.

Lemma py_input_evolui (X : Excecao → Estado → Prop) (prompt : string) :
  (∀ e, entrada e = [] → X EOFError e) → respeita evolui X (py_input prompt).
Proof.
  intros HX e. unfold py_input. destruct (entrada e) as [|l r] eqn:E; simpl.
  - split; [|intros x [= <-]; by apply HX].
    split; simpl; rewrite ?E; try done. by apply prefix_app_r.
  - split; [|done].
    split; simpl; rewrite ?E; try done; [by apply suffix_cons_r
                                        | by apply prefix_app_r].
Qed.

Lemma py_int_respeita R `{!PreOrder R} (X : Excecao → Estado → Prop) parse_int s :
  (∀ e, X ValueError e) → respeita R X (py_int parse_int s).
Proof.
  intros HX. unfold py_int.
  destruct (parse_int s); [by apply respeita_ret | by apply respeita_raise].
Qed.

Lemma py_float_respeita R `{!PreOrder R} (X : Excecao → Estado → Prop) parse_float s :
  (∀ e, X ValueError e) → respeita R X (py_float parse_float s).
Proof.
  intros HX. unfold py_float.
  destruct (parse_float s); [by apply respeita_ret | by apply respeita_raise].
Qed.

Lemma criar_Consumo_evolui X agora (v : Q) :
  respeita evolui X (criar_Consumo agora v).
Proof.
  intros e. split; [|done]. split; simpl; try done. lia.
Qed.

Lemma criar_Consumo_inr agora (v : Q) (c : Consumo) :
  (∃ e, (criar_Consumo agora v e).1 = inr c) → valor c = v.
Proof. intros [e H]. simpl in H. by injection H as <-. Qed.

Lemma modificar_gerenciador_evolui X (f : GerenciadorConsumo → GerenciadorConsumo) :
  (∀ g, cresce g (f g)) →
  (∀ g, sem_negativos g → sem_negativos (f g)) →
  (∀ g, bem_formados g → bem_formados (f g)) →
  respeita evolui X (modificar_gerenciador f).
Proof. intros H1 H2 H3 e. split; [|done]. split; simpl; auto. Qed.

Lemma atribuir_opcao_evolui X (z : Z) : respeita evolui X (atribuir_opcao z).
Proof. intros e. split; [|done]. by split. Qed.

(** ** Recording a consumption *)

Lemma py_input_nil (prompt : string) (e : Estado) :
  entrada e = [] →
  py_input prompt e
  = (inl EOFError, mkEstado (gerenciador e) [] (saida e ++ [Pergunta prompt])
                            (relogio e) (opcao e)).
Proof. intros H. unfold py_input. by rewrite H. Qed.

Lemma py_input_cons (prompt l : string) (r : list string) (e : Estado) :
  entrada e = l :: r →
  py_input prompt e
  = (inr l, mkEstado (gerenciador e) r (saida e ++ [Pergunta prompt])
                     (relogio e) (opcao e)).
Proof. intros H. unfold py_input. by rewrite H. Qed.

Lemma prefix_app_r2 {A} (l : list A) (x y : A) : l `prefix_of` (l ++ [x]) ++ [y].
Proof. by do 2 apply prefix_app_r. Qed.

Lemma prefix_app_r3 {A} (l : list A) (x y z : A) :
  l `prefix_of` ((l ++ [x]) ++ [y]) ++ [z].
Proof. by do 3 apply prefix_app_r. Qed.

Lemma suffix_cons_r2 {A} (l : list A) (x y : A) : l `suffix_of` x :: y :: l.
Proof. by do 2 apply suffix_cons_r. Qed.

(** What the [try] block does, case by case: either the input does not
    start with a valid position and an amount that is not negative, and
    the manager and the clock are as they were; or it does, both lines are
    read and the record is added to the user at that position. *)
Lemma tentar_registrar_casos fmt parse_int parse_float agora
    (us : list Usuario) (e : Estado) :
  us = usuarios (gerenciador e) →
  let r := tentar_registrar fmt parse_int parse_float agora us e in
  (((∀ n v resto, ¬ pode_registrar parse_int parse_float e n v resto) ∧
    gerenciador r.2 = gerenciador e ∧ relogio r.2 = relogio e) ∨
   (∃ n v resto,
      pode_registrar parse_int parse_float e n v resto ∧ r.1 = inr () ∧
      gerenciador r.2
      = adicionar_consumo_em (Z.to_nat (n - 1))
          (mkConsumo v (agora (relogio e))) (gerenciador e) ∧
      entrada r.2 = resto ∧ relogio r.2 = S (relogio e))) ∧
  entrada r.2 `suffix_of` entrada e ∧ saida e `prefix_of` saida r.2 ∧
  opcao r.2 = opcao e ∧
  (∀ x, r.1 = inl x → x = ValueError ∨ (x = EOFError ∧ entrada r.2 = [])).
Proof.
  intros Hus r. subst r. unfold tentar_registrar, mbind, Cmd_bind.
  destruct (entrada e) as [|l1 r1] eqn:E1.
  { rewrite (bind_inl _ _ _ _ _ (py_input_nil _ _ E1)). simpl.
    split; [left; split; [|done]|].
    { intros n v resto (l1 & l2 & He & _). congruence. }
    split; [done|]. split; [by apply prefix_app_r|].
    split; [done|]. intros x [= <-]. by right. }
  rewrite (bind_inr _ _ _ _ _ (py_input_cons _ _ _ _ E1)).
  unfold py_int. destruct (parse_int l1) as [n|] eqn:Hn; cycle 1.
  { simpl. split; [left; split; [|done]|].
    { intros n v resto (l1' & l2 & He & Hp & _). rewrite E1 in He. congruence. }
    split; [by apply suffix_cons_r|].
    split; [by apply prefix_app_r|]. split; [done|]. intros x [= <-]. by left. }
  rewrite (bind_inr _ _ _ _ n eq_refl).
  destruct ((n - 1 <? 0) || (n - 1 >=? Z.of_nat (length us)))%Z eqn:Hidx.
  { simpl. split; [left; split; [|done]|].
    { intros n' v resto (l1' & l2 & He & Hp & Hr & _). rewrite E1 in He.
      assert (n' = n) as -> by congruence. rewrite <- Hus in Hr.
      apply orb_true_iff in Hidx as [Hlo%Z.ltb_lt | Hhi].
      - lia.
      - rewrite Z.geb_leb in Hhi. apply Z.leb_le in Hhi. lia. }
    split; [by apply suffix_cons_r|].
    split; [by apply prefix_app_r2|]. done. }
  apply orb_false_iff in Hidx as [Hlo Hhi].
  apply Z.ltb_ge in Hlo. rewrite Z.geb_leb in Hhi. apply Z.leb_gt in Hhi.
  destruct r1 as [|l2 r2].
  { rewrite (bind_inl _ _ _ _ _ (py_input_nil _ (mkEstado _ [] _ _ _) eq_refl)).
    simpl. split; [left; split; [|done]|].
    { intros n' v resto (l1' & l2 & He & _). rewrite E1 in He. congruence. }
    split; [by apply suffix_cons_r|].
    split; [by apply prefix_app_r2|]. split; [done|]. intros x [= <-]. by right. }
  rewrite (bind_inr _ _ _ _ _
             (py_input_cons _ l2 r2 (mkEstado _ (l2 :: r2) _ _ _) eq_refl)).
  unfold py_float. destruct (parse_float l2) as [v|] eqn:Hv; cycle 1.
  { simpl. split; [left; split; [|done]|].
    { intros n' v resto (l1' & l2' & He & _ & _ & Hf & _). rewrite E1 in He.
      congruence. }
    split; [by apply suffix_cons_r2|].
    split; [by apply prefix_app_r2|]. split; [done|]. intros x [= <-]. by left. }
  rewrite (bind_inr _ _ _ _ v eq_refl).
  destruct (Qltb v 0) eqn:Hneg.
  { simpl. split; [left; split; [|done]|].
    { intros n' v' resto (l1' & l2' & He & _ & _ & Hf & Hq). rewrite E1 in He.
      assert (v' = v) as -> by congruence. congruence. }
    split; [by apply suffix_cons_r2|].
    split; [by apply prefix_app_r3|]. done. }
  assert (is_Some (us !! Z.to_nat (n - 1))) as [u Hu]
    by (apply lookup_lt_is_Some; lia).
  match goal with
  | |- context [bind (criar_Consumo agora v) ?k ?e2] =>
      assert (∃ s, bind (criar_Consumo agora v) k e2
                   = (inr (),
                      mkEstado (adicionar_consumo_em (Z.to_nat (n - 1))
                                  (mkConsumo v (agora (relogio e))) (gerenciador e))
                               r2 s (S (relogio e)) (opcao e))
                   ∧ saida e `prefix_of` s) as (s & -> & Hs)
  end.
  { unfold criar_Consumo, mbind, Cmd_bind, bind, datetime_now, ret,
      modificar_gerenciador, ler_gerenciador, elemento, listar_usuarios,
      novo_Consumo, py_print.
    cbn [gerenciador entrada saida relogio opcao default].
    unfold adicionar_consumo_em at 1. cbn [usuarios].
    rewrite list_lookup_alter_eq, <- Hus, Hu. cbn [fmap option_fmap option_map].
    eexists. split; [reflexivity|]. by apply prefix_app_r3. }
  cbn [fst snd gerenciador entrada saida relogio opcao].
  split.
  - right. exists n, v, r2. split; [|done].
    exists l1, l2. rewrite <- Hus. repeat split; try done; lia.
  - split; [by apply suffix_cons_r2|]. done.
Qed.

Lemma respeita_inr {A} (R : relation Estado) (c : Cmd A) (e : Estado) :
  respeita R (λ _ _, False) c → ∃ a, c e = (inr a, (c e).2) ∧ R e (c e).2.
Proof.
  intros H. destruct (H e) as [HR Hx]. destruct (c e) as [[x|a] e'] eqn:E.
  - destruct (Hx x eq_refl).
  - by exists a.
Qed.

Lemma pode_registrar_so_escreve parse_int parse_float (e e' : Estado) n v resto :
  so_escreve e e' →
  pode_registrar parse_int parse_float e' n v resto ↔
  pode_registrar parse_int parse_float e n v resto.
Proof.
  intros (Hg & He & _). unfold pode_registrar. by rewrite Hg, He.
Qed.

(** The whole command: as the [try] block, and [ValueError] never leaves
    it. *)
Lemma registrar_consumo_casos fmt parse_int parse_float agora (e : Estado) :
  let r := registrar_consumo fmt parse_int parse_float agora e in
  (((∀ n v resto, ¬ pode_registrar parse_int parse_float e n v resto) ∧
    gerenciador r.2 = gerenciador e ∧ relogio r.2 = relogio e) ∨
   (∃ n v resto,
      pode_registrar parse_int parse_float e n v resto ∧ r.1 = inr () ∧
      gerenciador r.2
      = adicionar_consumo_em (Z.to_nat (n - 1))
          (mkConsumo v (agora (relogio e))) (gerenciador e) ∧
      entrada r.2 = resto ∧ relogio r.2 = S (relogio e))) ∧
  entrada r.2 `suffix_of` entrada e ∧ saida e `prefix_of` saida r.2 ∧
  opcao r.2 = opcao e ∧
  (∀ x, r.1 = inl x → so_fim_da_entrada x r.2).
Proof.
  intros r. subst r. unfold registrar_consumo, mbind, Cmd_bind.
  rewrite (bind_inr ler_gerenciador _ e e (gerenciador e) eq_refl).
  unfold listar_usuarios.
  destruct (usuarios (gerenciador e)) as [|u0 us0] eqn:Eus.
  { simpl. split; [left; split; [|done]|].
    { intros n v resto (l1 & l2 & _ & _ & Hr & _). rewrite Eus in Hr.
      simpl in Hr. lia. }
    split; [done|]. split; [by apply prefix_app_r|]. done. }
  change (length (u0 :: us0) =? 0)%nat with false. cbv iota.
  rewrite (bind_inr (py_print _) _ _ _ () eq_refl).
  match goal with
  | |- context [bind (para_cada ?l ?f) ?k ?e0] =>
      destruct (respeita_inr so_escreve (para_cada l f) e0) as ([] & Hpc & Hso);
      [ apply respeita_para_cada; [apply _|]; intros [i w] _;
        apply py_print_so_escreve
      | rewrite (bind_inr _ _ _ _ _ Hpc);
        set (e1 := (para_cada l f e0).2) in * ]
  end.
  assert (so_escreve e e1) as He1.
  { etrans; [|exact Hso]. repeat split. simpl. by apply prefix_app_r. }
  clear Hpc Hso. clearbody e1. destruct He1 as (Hg & Hent & Hrel & Hop & Hsai).
  assert (so_escreve e e1) as He1 by done.
  pose proof (tentar_registrar_casos fmt parse_int parse_float agora
                (u0 :: us0) e1) as Hcasos.
  rewrite Hg, Eus in Hcasos. specialize (Hcasos eq_refl).
  cbv zeta in Hcasos. unfold try_except.
  destruct (tentar_registrar fmt parse_int parse_float agora (u0 :: us0) e1)
    as [[x|[]] e2] eqn:Et; cbn [fst snd] in Hcasos.
  - destruct Hcasos as (Hcaso & Hsuf & Hpre & Hopc & Hx).
    destruct Hcaso as [(Hnao & Hg2 & Hr2) | (n & v & resto & _ & Hinr & _)];
      [|discriminate Hinr].
    assert (∀ n v resto, ¬ pode_registrar parse_int parse_float e n v resto)
      as Hnao'.
    { intros n v resto Hp. apply (Hnao n v resto).
      by apply (pode_registrar_so_escreve _ _ e e1). }
    case_decide as Hd; cbn [fst snd py_print gerenciador entrada saida relogio opcao].
    + split; [left; split; [done|]; split; [exact Hg2 | by rewrite Hr2]|].
      split; [by rewrite <- Hent|]. split; [|split; [congruence | done]].
      apply prefix_app_r. by etrans.
    + split; [left; split; [done|]; split; [exact Hg2 | by rewrite Hr2]|].
      split; [by rewrite <- Hent|]. split; [by etrans|].
      split; [by rewrite Hopc|]. intros y [= <-].
      destruct (Hx x eq_refl) as [? | [-> ?]]; [done | by split].
  - destruct Hcasos as (Hcaso & Hsuf & Hpre & Hopc & Hx). cbn [fst snd].
    split; [|split; [by rewrite <- Hent | split; [by etrans | split;
                                                    [congruence | done]]]].
    destruct Hcaso as [(Hnao & Hg2 & Hr2) | (n & v & resto & Hp & _ & Hg2 & Hr & Hrel2)].
    + left. split; [|split; congruence]. intros n v resto Hp.
      apply (Hnao n v resto). by apply (pode_registrar_so_escreve _ _ e e1).
    + right. exists n, v, resto.
      split; [by apply (pode_registrar_so_escreve _ _ e e1)|].
      split; [done|]. rewrite Hrel in Hg2. rewrite Hrel in Hrel2. done.
Qed.

Lemma registrar_consumo_evolui fmt parse_int parse_float agora :
  respeita evolui so_fim_da_entrada
    (registrar_consumo fmt parse_int parse_float agora).
Proof.
  intros e.
  destruct (registrar_consumo_casos fmt parse_int parse_float agora e)
    as (Hcaso & Hsuf & Hpre & _ & Hx).
  split; [|done].
  destruct Hcaso as [(_ & Hg & Hr) | (n & v & resto & Hp & _ & Hg & _ & Hr)].
  - split; rewrite ?Hg, ?Hr; done.
  - destruct Hp as (_ & _ & _ & _ & _ & _ & Hneg).
    split; rewrite ?Hg, ?Hr; try done.
    + apply adicionar_consumo_em_cresce.
    + by apply adicionar_consumo_em_sem_negativos.
    + apply adicionar_consumo_em_bem_formados.
    + lia.
Qed.

(** ** Registering users *)

(** One step through a command that may read and change the state. *)
Ltac passo_evolui :=
  lazymatch goal with
  | |- respeita _ _ (mbind _ _) => unfold mbind, Cmd_bind
  | |- respeita _ _ (bind _ _) => apply respeita_bind; [apply _ | | intros ? ?]
  | |- respeita _ _ (ret _) => apply respeita_ret; apply _
  | |- respeita _ _ (py_print _) => apply py_print_evolui
  | |- respeita _ _ (py_input _) => apply py_input_evolui; try done
  | |- respeita _ _ (atribuir_opcao _) => apply atribuir_opcao_evolui
  | |- respeita _ _ (if ?b then _ else _) => destruct b eqn:?
  end.

Lemma cadastrar_usuario_residencial_evolui :
  respeita evolui so_fim_da_entrada cadastrar_usuario_residencial.
Proof.
  unfold cadastrar_usuario_residencial. repeat passo_evolui.
  apply modificar_gerenciador_evolui; intros g.
  - apply adicionar_usuario_cresce.
  - by apply adicionar_usuario_sem_negativos.
  - apply adicionar_usuario_bem_formados. by left.
Qed.

Lemma cadastrar_usuario_comercial_evolui :
  respeita evolui so_fim_da_entrada cadastrar_usuario_comercial.
Proof.
  unfold cadastrar_usuario_comercial. repeat passo_evolui.
  apply modificar_gerenciador_evolui; intros g.
  - apply adicionar_usuario_cresce.
  - by apply adicionar_usuario_sem_negativos.
  - apply adicionar_usuario_bem_formados. right. by eexists.
Qed.

(** ** The loop *)

Lemma despachar_evolui fmt fmt2 strftime parse_int parse_float agora (n : Z) :
  respeita evolui so_fim_da_entrada
    (despachar fmt fmt2 strftime parse_int parse_float agora n).
Proof.
  unfold despachar. repeat passo_evolui.
  - apply cadastrar_usuario_residencial_evolui.
  - apply cadastrar_usuario_comercial_evolui.
  - apply registrar_consumo_evolui.
  - apply (respeita_sub so_escreve); [apply so_escreve_evolui|].
    apply ver_consumo_so_escreve.
  - apply (respeita_sub so_escreve); [apply so_escreve_evolui|].
    apply calcular_consumo_total_so_escreve.
  - apply (respeita_sub so_escreve); [apply so_escreve_evolui|].
    apply ver_alerta_consumo_so_escreve.
  - apply (respeita_sub so_escreve); [apply so_escreve_evolui|].
    apply ver_estatisticas_detalhadas_so_escreve.
  - apply (respeita_sub so_escreve); [apply so_escreve_evolui|].
    apply ver_relatorio_geral_so_escreve.
Qed.

Lemma corpo_do_laco_evolui fmt fmt2 strftime parse_int parse_float agora :
  respeita evolui so_fim_da_entrada
    (corpo_do_laco fmt fmt2 strftime parse_int parse_float agora).
Proof.
  unfold corpo_do_laco. do 2 passo_evolui.
  { apply (respeita_sub so_escreve); [apply so_escreve_evolui|].
    apply mostrar_menu_so_escreve. }
  apply respeita_try; [apply _ | | apply py_print_evolui].
  unfold mbind, Cmd_bind.
  apply respeita_bind; [apply _ | | intros linha _].
  { apply py_input_evolui. intros e He. by right. }
  apply respeita_bind; [apply _ | | intros n _].
  { apply py_int_respeita; [apply _ | by left]. }
  apply respeita_bind; [apply _ | apply atribuir_opcao_evolui | intros _ _].
  eapply respeita_enfraquece; [|apply despachar_evolui].
  intros x e Hx. by right.
Qed.

(** A turn of the loop that ends without an exception has read a line. *)
Lemma corpo_do_laco_consome fmt fmt2 strftime parse_int parse_float agora
    (e e' : Estado) (a : unit) :
  corpo_do_laco fmt fmt2 strftime parse_int parse_float agora e = (inr a, e') →
  (length (entrada e') < length (entrada e))%nat.
Proof.
  unfold corpo_do_laco, mbind, Cmd_bind.
  destruct (respeita_inr so_escreve mostrar_menu e) as ([] & Hm & Hso);
    [apply mostrar_menu_so_escreve|].
  rewrite (bind_inr _ _ _ _ _ Hm). destruct Hso as (_ & Hent & _).
  set (e0 := (mostrar_menu e).2) in *. clearbody e0. rewrite <- Hent.
  unfold try_except. destruct (entrada e0) as [|l r] eqn:E.
  { rewrite (bind_inl _ _ _ _ _ (py_input_nil _ _ E)).
    case_decide; [done|]. intros [=]. }
  rewrite (bind_inr _ _ _ _ _ (py_input_cons _ _ _ _ E)).
  match goal with
  | |- context [bind (py_int parse_int l) ?k ?e1] =>
      assert (respeita evolui (λ y e, y = ValueError ∨ so_fim_da_entrada y e)
                (bind (py_int parse_int l) k)) as Hk;
      [| destruct (Hk e1) as [[_ _ _ Hsuf _ _] _];
         destruct (bind (py_int parse_int l) k e1) as [[x|[]] e2] ]
  end.
  { apply respeita_bind; [apply _ | | intros n _].
    { apply py_int_respeita; [apply _ | by left]. }
    apply respeita_bind; [apply _ | apply atribuir_opcao_evolui | intros _ _].
    eapply respeita_enfraquece; [|apply despachar_evolui].
    intros x e1 Hx. by right. }
  - cbn [snd entrada] in Hsuf. apply suffix_length in Hsuf.
    case_decide; [|intros [=]]. intros [= _ <-]. simpl. lia.
  - cbn [snd entrada] in Hsuf. apply suffix_length in Hsuf.
    intros [= _ <-]. simpl. lia.
Qed.

Lemma laco_evolui fmt fmt2 strftime parse_int parse_float agora
    (n : nat) (e e' : Estado) (r : Excecao + unit) :
  laco fmt fmt2 strftime parse_int parse_float agora n e = Some (r, e') →
  evolui e e' ∧
  match r with
  | inr _ => opcao e' = 9%Z
  | inl x => so_fim_da_entrada x e'
  end.
Proof.
  revert e. induction n as [|n IH]; intros e; simpl.
  - destruct (opcao e =? 9)%Z eqn:Eo; [|done]. intros [= <- <-].
    split; [reflexivity | by apply Z.eqb_eq].
  - destruct (opcao e =? 9)%Z eqn:Eo.
    { intros [= <- <-]. split; [reflexivity | by apply Z.eqb_eq]. }
    destruct (corpo_do_laco_evolui fmt fmt2 strftime parse_int parse_float
                agora e) as [Hev Hx].
    destruct (corpo_do_laco fmt fmt2 strftime parse_int parse_float agora e)
      as [[x|[]] e1].
    + intros [= <- <-]. split; [done | by apply Hx].
    + intros H. destruct (IH e1 H) as [Hev' Hr]. split; [by etrans | done].
Qed.

Lemma laco_termina fmt fmt2 strftime parse_int parse_float agora
    (n : nat) (e : Estado) :
  (length (entrada e) < n)%nat →
  is_Some (laco fmt fmt2 strftime parse_int parse_float agora n e).
Proof.
  revert e. induction n as [|n IH]; intros e Hn; [lia|]. simpl.
  destruct (opcao e =? 9)%Z; [eauto|].
  destruct (corpo_do_laco fmt fmt2 strftime parse_int parse_float agora e)
    as [[x|[]] e1] eqn:E; [eauto|].
  apply IH. apply corpo_do_laco_consome in E. lia.
Qed.

Lemma laco_mais_combustivel fmt fmt2 strftime parse_int parse_float agora
    (n m : nat) (e : Estado) res :
  laco fmt fmt2 strftime parse_int parse_float agora n e = Some res →
  (n ≤ m)%nat →
  laco fmt fmt2 strftime parse_int parse_float agora m e = Some res.
Proof.
  revert m e. induction n as [|n IH]; intros m e; simpl.
  - destruct (opcao e =? 9)%Z eqn:Eo; [|done]. intros H _.
    destruct m; simpl; by rewrite Eo.
  - intros H Hm. destruct m as [|m]; [lia|]. simpl.
    destruct (opcao e =? 9)%Z; [done|].
    destruct (corpo_do_laco fmt fmt2 strftime parse_int parse_float agora e)
      as [[x|[]] e1]; [done|].
    apply IH; [done | lia].
Qed.

(** ** What a user of the menu can rely on *)

Lemma pode_registrar_unico parse_int parse_float (e : Estado) n v resto n' v' resto' :
  pode_registrar parse_int parse_float e n v resto →
  pode_registrar parse_int parse_float e n' v' resto' →
  n' = n ∧ v' = v ∧ resto' = resto.
Proof.
  intros (l1 & l2 & He & Hn & _ & Hv & _) (l1' & l2' & He' & Hn' & _ & Hv' & _).
  rewrite He in He'. injection He' as <- <- <-.
  rewrite Hn in Hn'. rewrite Hv in Hv'. by simplify_eq.
Qed.

(** X11. Option 3 changes the manager only when the next two lines are a
    valid position of the list of users and an amount that is not
    negative: then it reads both and adds one record with that amount, at
    the time of the clock, to the user at that position.  In every other
    case (no user, text that is not a number, a position out of range, a
    negative amount, end of input) the manager is left as it was.
    [ValueError] never leaves the command. *)
Theorem registrar_consumo_efeito fmt parse_int parse_float agora (e : Estado) :
  let r := registrar_consumo fmt parse_int parse_float agora e in
  (∀ n v resto,
     pode_registrar parse_int parse_float e n v resto →
     r.1 = inr () ∧
     gerenciador r.2
     = adicionar_consumo_em (Z.to_nat (n - 1))
         (mkConsumo v (agora (relogio e))) (gerenciador e) ∧
     entrada r.2 = resto) ∧
  ((∀ n v resto, ¬ pode_registrar parse_int parse_float e n v resto) →
   gerenciador r.2 = gerenciador e) ∧
  (∀ x, r.1 = inl x → x = EOFError ∧ entrada r.2 = []).
Proof.
  intros r.
  destruct (registrar_consumo_casos fmt parse_int parse_float agora e)
    as (Hcaso & _ & _ & _ & Hx). fold r in Hcaso, Hx.
  split; [|split; [|done]].
  - intros n v resto Hp.
    destruct Hcaso as [(Hnao & _) | (n' & v' & resto' & Hp' & Hr & Hg & Hent & _)].
    + destruct (Hnao n v resto Hp).
    + destruct (pode_registrar_unico _ _ _ _ _ _ _ _ _ Hp Hp') as (-> & -> & ->).
      done.
  - intros Hnao.
    destruct Hcaso as [(_ & Hg & _) | (n' & v' & resto' & Hp' & _)]; [done|].
    destruct (Hnao n' v' resto' Hp').
Qed.

(** X12. Registration takes any line as a name, the empty line and a
    name already in use too: the new user goes to the end of the list with
    no records.  When the input ends before the name, or before the CNPJ
    of a company, the command ends with [EOFError] and no user is added. *)
Theorem cadastrar_usuario_efeito (e : Estado) :
  (∀ l r, entrada e = l :: r →
     ∃ s, cadastrar_usuario_residencial e
          = (inr (), mkEstado (adicionar_usuario (gerenciador e) (novo_Usuario l None))
                              r s (relogio e) (opcao e))) ∧
  (∀ l1 l2 r, entrada e = l1 :: l2 :: r →
     ∃ s, cadastrar_usuario_comercial e
          = (inr (), mkEstado (adicionar_usuario (gerenciador e)
                                 (novo_UsuarioComercial l1 l2))
                              r s (relogio e) (opcao e))) ∧
  (entrada e = [] →
     (cadastrar_usuario_residencial e).1 = inl EOFError ∧
     gerenciador (cadastrar_usuario_residencial e).2 = gerenciador e ∧
     (cadastrar_usuario_comercial e).1 = inl EOFError ∧
     gerenciador (cadastrar_usuario_comercial e).2 = gerenciador e) ∧
  (∀ l, entrada e = [l] →
     (cadastrar_usuario_comercial e).1 = inl EOFError ∧
     gerenciador (cadastrar_usuario_comercial e).2 = gerenciador e).
Proof.
  unfold cadastrar_usuario_residencial, cadastrar_usuario_comercial,
    mbind, Cmd_bind.
  split; [|split; [|split]].
  - intros l r E. rewrite (bind_inr _ _ _ _ _ (py_input_cons _ _ _ _ E)).
    eexists. reflexivity.
  - intros l1 l2 r E. rewrite (bind_inr _ _ _ _ _ (py_input_cons _ _ _ _ E)).
    rewrite (bind_inr _ _ _ _ _
               (py_input_cons _ l2 r (mkEstado _ (l2 :: r) _ _ _) eq_refl)).
    eexists. reflexivity.
  - intros E. rewrite !(bind_inl _ _ _ _ _ (py_input_nil _ _ E)). done.
  - intros l E. rewrite (bind_inr _ _ _ _ _ (py_input_cons _ _ _ _ E)).
    rewrite (bind_inl _ _ _ _ _ (py_input_nil _ (mkEstado _ [] _ _ _) eq_refl)).
    done.
Qed.

(** X13. Options 4 to 8 and the menu text only write: they end without
    an exception (no key is missing from the dictionaries they read and
    nothing is divided by zero), read no input, and leave the manager, the
    clock and the chosen option as they were. *)
Theorem consultas_so_escrevem fmt fmt2 strftime (e : Estado) :
  (∃ e', ver_consumo fmt strftime e = (inr (), e') ∧ so_escreve e e') ∧
  (∃ e', calcular_consumo_total fmt e = (inr (), e') ∧ so_escreve e e') ∧
  (∃ e', ver_alerta_consumo fmt e = (inr (), e') ∧ so_escreve e e') ∧
  (∃ e', ver_estatisticas_detalhadas fmt fmt2 e = (inr (), e') ∧ so_escreve e e') ∧
  (∃ e', ver_relatorio_geral fmt fmt2 e = (inr (), e') ∧ so_escreve e e') ∧
  (∃ e', mostrar_menu e = (inr (), e') ∧ so_escreve e e').
Proof.
  repeat split.
  - destruct (respeita_inr so_escreve (ver_consumo fmt strftime) e)
      as ([] & H & Hs); [apply ver_consumo_so_escreve | eauto].
  - destruct (respeita_inr so_escreve (calcular_consumo_total fmt) e)
      as ([] & H & Hs); [apply calcular_consumo_total_so_escreve | eauto].
  - destruct (respeita_inr so_escreve (ver_alerta_consumo fmt) e)
      as ([] & H & Hs); [apply ver_alerta_consumo_so_escreve | eauto].
  - destruct (respeita_inr so_escreve (ver_estatisticas_detalhadas fmt fmt2) e)
      as ([] & H & Hs); [apply ver_estatisticas_detalhadas_so_escreve | eauto].
  - destruct (respeita_inr so_escreve (ver_relatorio_geral fmt fmt2) e)
      as ([] & H & Hs); [apply ver_relatorio_geral_so_escreve | eauto].
  - destruct (respeita_inr so_escreve mostrar_menu e)
      as ([] & H & Hs); [apply mostrar_menu_so_escreve | eauto].
Qed.

(** ** A whole session *)

Lemma executar_laco fmt fmt2 strftime parse_int parse_float agora
    (n : nat) (e : Estado) :
  executar fmt fmt2 strftime parse_int parse_float agora n e
  = laco fmt fmt2 strftime parse_int parse_float agora n
      (mkEstado (gerenciador e) (entrada e) (saida e) (relogio e) 0).
Proof. reflexivity. Qed.

(** With more turns allowed than there are lines to read, [executar] ends,
    in a state the start state evolves to, and either normally with option
    9 chosen or with [EOFError] and the input used up. *)
Lemma executar_resultado fmt fmt2 strftime parse_int parse_float agora
    (n : nat) (e : Estado) :
  (length (entrada e) < n)%nat →
  ∃ r e', executar fmt fmt2 strftime parse_int parse_float agora n e
          = Some (r, e') ∧
          evolui e e' ∧
          match r with
          | inr _ => opcao e' = 9%Z
          | inl x => so_fim_da_entrada x e'
          end.
Proof.
  intros Hn. rewrite executar_laco.
  destruct (laco_termina fmt fmt2 strftime parse_int parse_float agora n
              (mkEstado (gerenciador e) (entrada e) (saida e) (relogio e) 0))
    as [[r e'] Hl]; [done|].
  exists r, e'. split; [done|].
  destruct (laco_evolui _ _ _ _ _ _ _ _ _ _ Hl) as [[] Hr].
  split; [by split | done].
Qed.

Lemma sem_negativos_novo : sem_negativos novo_GerenciadorConsumo.
Proof. intros u Hu. inversion Hu. Qed.

Lemma bem_formados_novo : bem_formados novo_GerenciadorConsumo.
Proof. intros u Hu. inversion Hu. Qed.

(** X14. Whatever is typed, a session that starts with the menu ends
    with a manager in which no record has a negative amount, every user is
    a [Usuario] of type "Residencial" or a [UsuarioComercial] of type
    "Comercial", and the policies are the two default ones. *)
Theorem menu_invariantes fmt fmt2 strftime parse_int parse_float agora
    (n : nat) (linhas : list string) :
  (length linhas < n)%nat →
  ∃ r e', menu fmt fmt2 strftime parse_int parse_float agora n linhas
          = Some (r, e') ∧
          sem_negativos (gerenciador e') ∧
          bem_formados (gerenciador e') ∧
          alertas (gerenciador e') = [AlertaSimples 200; AlertaCritico 200].
Proof.
  intros Hn. unfold menu.
  destruct (executar_resultado fmt fmt2 strftime parse_int parse_float agora n
              (mkEstado novo_GerenciadorConsumo linhas [] 0 0) Hn)
    as (r & e' & He & [[Hal _] Hneg Hbem _ _ _] & _).
  exists r, e'. split; [done|]. split; [|split]; [| |done].
  - apply Hneg, sem_negativos_novo.
  - apply Hbem, bem_formados_novo.
Qed.

(** X15. From any state, a run of [executar] never removes, renames or
    moves a user and never removes or reorders a record: every user is
    still at its position with the records it had in front of those it
    has now; the policies are unchanged, the lines read are taken from the
    front of the input and the output is only added to. *)
Theorem executar_so_acrescenta fmt fmt2 strftime parse_int parse_float agora
    (n : nat) (e : Estado) :
  (length (entrada e) < n)%nat →
  ∃ r e', executar fmt fmt2 strftime parse_int parse_float agora n e
          = Some (r, e') ∧
          alertas (gerenciador e') = alertas (gerenciador e) ∧
          (∀ i u, usuarios (gerenciador e) !! i = Some u →
             ∃ u', usuarios (gerenciador e') !! i = Some u' ∧
                   nome u' = nome u ∧ tipo u' = tipo u ∧ classe u' = classe u ∧
                   consumos u `prefix_of` consumos u') ∧
          entrada e' `suffix_of` entrada e ∧
          saida e `prefix_of` saida e'.
Proof.
  intros Hn.
  destruct (executar_resultado fmt fmt2 strftime parse_int parse_float agora n e Hn)
    as (r & e' & He & [[Hal Hus] _ _ Hent Hsai _] & _).
  exists r, e'. done.
Qed.

(** X16. A session ends: with more turns allowed than there are lines,
    [executar] returns, either normally after option 9 was chosen or with
    [EOFError] once the input is used up; no other exception leaves it,
    and allowing more turns gives the same result. *)
Theorem executar_termina fmt fmt2 strftime parse_int parse_float agora
    (n : nat) (e : Estado) :
  (length (entrada e) < n)%nat →
  ∃ r e', executar fmt fmt2 strftime parse_int parse_float agora n e
          = Some (r, e') ∧
          ((r = inr () ∧ opcao e' = 9%Z) ∨
           (r = inl EOFError ∧ entrada e' = [])) ∧
          ∀ m, (n ≤ m)%nat →
               executar fmt fmt2 strftime parse_int parse_float agora m e
               = Some (r, e').
Proof.
  intros Hn.
  destruct (executar_resultado fmt fmt2 strftime parse_int parse_float agora n e Hn)
    as (r & e' & He & _ & Hr).
  exists r, e'. split; [done|]. split.
  - destruct r as [x|[]]; [right | by left]. by destruct Hr as [-> ?].
  - intros m Hm. rewrite executar_laco in *.
    by apply (laco_mais_combustivel _ _ _ _ _ _ n m).
Qed.




Lemma mostrar_menu_estado (e : Estado) :
  ∃ s, mostrar_menu e
       = (inr (), mkEstado (gerenciador e) (entrada e) s (relogio e) (opcao e)).
Proof. eexists. reflexivity. Qed.

(** X18. A line that is not a number, or a number that is none of the
    options, costs one line of input and changes nothing else but the
    output: the first prints the error message and keeps the option chosen
    before, the second prints the message for an invalid option.  Option 9
    prints the farewell and the loop stops there. *)
Theorem corpo_do_laco_opcao fmt fmt2 strftime parse_int parse_float agora
    (e : Estado) (l : string) (r : list string) :
  entrada e = l :: r →
  (parse_int l = None →
   ∃ s, corpo_do_laco fmt fmt2 strftime parse_int parse_float agora e
        = (inr (), mkEstado (gerenciador e) r
                     (s ++ [Linha "Erro: Digite um número válido."])
                     (relogio e) (opcao e))) ∧
  (∀ n, parse_int l = Some n → (n < 1 ∨ 9 < n)%Z →
   ∃ s, corpo_do_laco fmt fmt2 strftime parse_int parse_float agora e
        = (inr (), mkEstado (gerenciador e) r
                     (s ++ [Linha "Opção inválida. Escolha entre 1 e 9."])
                     (relogio e) n)) ∧
  (parse_int l = Some 9%Z →
   ∃ s e', corpo_do_laco fmt fmt2 strftime parse_int parse_float agora e
           = (inr (), e') ∧
           e' = mkEstado (gerenciador e) r (s ++ [Linha "Saindo do sistema..."])
                         (relogio e) 9 ∧
           ∀ k, laco fmt fmt2 strftime parse_int parse_float agora k e'
                = Some (inr (), e')).
Proof.
  intros E. destruct (mostrar_menu_estado e) as [s0 Hm].
  unfold corpo_do_laco, mbind, Cmd_bind.
  rewrite (bind_inr _ _ _ _ _ Hm). unfold try_except.
  rewrite (bind_inr _ _ _ _ _
             (py_input_cons _ l r (mkEstado _ (entrada e) _ _ _) E)).
  unfold py_int. split; [|split].
  - intros ->. eexists. reflexivity.
  - intros n -> Hn. rewrite (bind_inr (ret n) _ _ _ n eq_refl).
    rewrite (bind_inr (atribuir_opcao n) _ _ _ () eq_refl). unfold despachar.
    repeat match goal with
           | |- context [(n =? ?k)%Z] =>
               let H := fresh in
               destruct (n =? k)%Z eqn:H; [apply Z.eqb_eq in H; lia|]
           end.
    eexists. reflexivity.
  - intros ->. rewrite (bind_inr (ret 9%Z) _ _ _ 9%Z eq_refl).
    rewrite (bind_inr (atribuir_opcao 9) _ _ _ () eq_refl).
    eexists _, _. split; [reflexivity|]. split; [reflexivity|].
    intros k. by destruct k.
Qed.

(** * The further properties on concrete objects *)

Lemma alertas_persistem_ana250 :
  (length (verificar_alertas fmt_fracao gerenciador_exemplo ana250)
   ≤ length (verificar_alertas fmt_fracao gerenciador_exemplo
               (adicionar_consumo ana250 (novo_Consumo 2 100 None))))%nat.
Proof.
  apply (alertas_persistem fmt_fracao gerenciador_exemplo ana250
           (novo_Consumo 2 100 None)).
  vm_compute. discriminate.
Defined.

Lemma sem_consumos_sem_alerta_acme :
  verificar_alertas fmt_fracao gerenciador_exemplo acme = [].
Proof.
  apply (sem_consumos_sem_alerta fmt_fracao gerenciador_exemplo acme).
  - reflexivity.
  - intros a Ha. apply elem_of_cons in Ha as [-> | Ha];
      [vm_compute; discriminate|].
    apply elem_of_cons in Ha as [-> | Ha]; [vm_compute; discriminate|].
    by apply elem_of_nil in Ha.
Defined.


Lemma usuarios_com_alerta_limitado_exemplo :
  ∃ d n k, gerar_relatorio_geral fmt_fracao gerenciador_exemplo = Some d ∧
           d !! "total_usuarios" = Some n ∧
           d !! "usuarios_com_alerta" = Some k ∧
           (0 <= k)%Q ∧ (k <= n)%Q.
Proof.
  apply (usuarios_com_alerta_limitado fmt_fracao gerenciador_exemplo).
  vm_compute. discriminate.
Defined.

Lemma buscar_usuario_apos_adicionar_ana :
  buscar_usuario lower_ascii (adicionar_usuario novo_GerenciadorConsumo ana) "Ana"
  = Some ana.
Proof.
  apply (buscar_usuario_apos_adicionar lower_ascii novo_GerenciadorConsumo ana "Ana").
  reflexivity.
Defined.

Lemma registrar_consumo_efeito_exemplo :
  gerenciador
    (registrar_consumo fmt_fracao int_decimal float_decimal Z.of_nat
       (mkEstado gerenciador_exemplo ["1"; "100"; "9"] [] 3 3)).2
  = adicionar_consumo_em 0 (mkConsumo 100 3) gerenciador_exemplo.
Proof.
  destruct (registrar_consumo_efeito fmt_fracao int_decimal float_decimal Z.of_nat
              (mkEstado gerenciador_exemplo ["1"; "100"; "9"] [] 3 3))
    as (H & _).
  apply (H 1%Z 100%Q ["9"]).
  exists "1", "100". repeat split; try reflexivity; vm_compute; discriminate.
Defined.

(** "Ana" is registered although a user of that name is there already. *)
Lemma cadastrar_usuario_efeito_exemplo :
  ∃ s, cadastrar_usuario_residencial
         (mkEstado gerenciador_exemplo ["Ana"; "9"] [] 3 1)
       = (inr (), mkEstado (adicionar_usuario gerenciador_exemplo
                              (novo_Usuario "Ana" None))
                           ["9"] s 3 1).
Proof.
  destruct (cadastrar_usuario_efeito
              (mkEstado gerenciador_exemplo ["Ana"; "9"] [] 3 1)) as (H & _).
  apply (H "Ana" ["9"]). reflexivity.
Defined.

Lemma menu_invariantes_exemplo :
  ∃ r e', menu fmt_fracao fmt_fracao pretty int_decimal float_decimal Z.of_nat
            (S (length sessao_exemplo)) sessao_exemplo
          = Some (r, e') ∧
          sem_negativos (gerenciador e') ∧
          bem_formados (gerenciador e') ∧
          alertas (gerenciador e') = [AlertaSimples 200; AlertaCritico 200].
Proof.
  apply (menu_invariantes fmt_fracao fmt_fracao pretty int_decimal float_decimal
           Z.of_nat (S (length sessao_exemplo)) sessao_exemplo).
  simpl. lia.
Defined.

Lemma executar_so_acrescenta_exemplo :
  ∃ r e', executar fmt_fracao fmt_fracao pretty int_decimal float_decimal Z.of_nat
            5 estado_exemplo
          = Some (r, e') ∧
          alertas (gerenciador e') = alertas (gerenciador estado_exemplo) ∧
          (∀ i u, usuarios (gerenciador estado_exemplo) !! i = Some u →
             ∃ u', usuarios (gerenciador e') !! i = Some u' ∧
                   nome u' = nome u ∧ tipo u' = tipo u ∧ classe u' = classe u ∧
                   consumos u `prefix_of` consumos u') ∧
          entrada e' `suffix_of` entrada estado_exemplo ∧
          saida estado_exemplo `prefix_of` saida e'.
Proof.
  apply (executar_so_acrescenta fmt_fracao fmt_fracao pretty int_decimal
           float_decimal Z.of_nat 5 estado_exemplo).
  simpl. lia.
Defined.

Lemma executar_termina_exemplo :
  ∃ r e', executar fmt_fracao fmt_fracao pretty int_decimal float_decimal Z.of_nat
            5 estado_exemplo
          = Some (r, e') ∧
          ((r = inr () ∧ opcao e' = 9%Z) ∨
           (r = inl EOFError ∧ entrada e' = [])) ∧
          ∀ m, (5 ≤ m)%nat →
               executar fmt_fracao fmt_fracao pretty int_decimal float_decimal
                 Z.of_nat m estado_exemplo
               = Some (r, e').
Proof.
  apply (executar_termina fmt_fracao fmt_fracao pretty int_decimal float_decimal
           Z.of_nat 5 estado_exemplo).
  simpl. lia.
Defined.



Lemma corpo_do_laco_opcao_exemplo :
  ∃ s, corpo_do_laco fmt_fracao fmt_fracao pretty int_decimal float_decimal Z.of_nat
         (mkEstado gerenciador_exemplo ["abc"; "9"] [] 3 4)
       = (inr (), mkEstado gerenciador_exemplo ["9"]
                    (s ++ [Linha "Erro: Digite um número válido."]) 3 4).
Proof.
  destruct (corpo_do_laco_opcao fmt_fracao fmt_fracao pretty int_decimal
              float_decimal Z.of_nat
              (mkEstado gerenciador_exemplo ["abc"; "9"] [] 3 4) "abc" ["9"]
              eq_refl) as (H & _).
  apply H. reflexivity.
Defined.

(** * Properties of the numeric code on binary64 *)

(** ** The order of floats *)

Lemma compare_cont_Eq (p q : positive) : Pos.compare_cont Eq p q = Pos.compare p q.
Proof. reflexivity. Qed.

(** Case analysis on the comparisons of exponents and significands. *)
Ltac sf_comparacoes :=
  repeat match goal with
         | H : context [Pos.compare_cont Eq ?a ?b] |- _ =>
             rewrite (compare_cont_Eq a b) in H
         | |- context [Pos.compare_cont Eq ?a ?b] =>
             rewrite (compare_cont_Eq a b)
         end;
  repeat match goal with
         | H : context [(?a ?= ?b)%Z] |- _ =>
             destruct (Z.compare_spec a b); subst; simpl in H
         | |- context [(?a ?= ?b)%Z] =>
             destruct (Z.compare_spec a b); subst; simpl
         | H : context [(?a ?= ?b)%positive] |- _ =>
             destruct (Pos.compare_spec a b); subst; simpl in H
         | |- context [(?a ?= ?b)%positive] =>
             destruct (Pos.compare_spec a b); subst; simpl
         end;
  try reflexivity; try congruence; try lia.

Lemma SFcompare_refl (x : spec_float) :
  x ≠ S754_nan → SFcompare x x = Some Eq.
Proof.
  destruct x as [[]|[]| |[] m e]; simpl; intros H; try congruence;
    rewrite Z.compare_refl; simpl; rewrite compare_cont_Eq, Pos.compare_refl; done.
Qed.

Lemma SFcompare_antisym (x y : spec_float) :
  SFcompare y x = CompOpp <$> SFcompare x y.
Proof.
  destruct x as [[]|[]| |[] m e], y as [[]|[]| |[] m' e']; simpl; try done;
    rewrite (Z.compare_antisym e e'), !compare_cont_Eq, (Pos.compare_antisym m m');
    destruct (e ?= e')%Z; simpl; try done; by destruct (m ?= m')%positive.
Qed.

Lemma SFcompare_total (x y : spec_float) :
  x ≠ S754_nan → y ≠ S754_nan → is_Some (SFcompare x y).
Proof.
  destruct x as [[]|[]| |[] m e], y as [[]|[]| |[] m' e']; simpl; intros; try done; eauto.
Qed.

Lemma SFcompare_trans (x y z : spec_float) (c : comparison) :
  SFcompare x y = Some c → SFcompare y z = Some c → SFcompare x z = Some c.
Proof.
  destruct x as [[]|[]| |[] m1 e1], y as [[]|[]| |[] m2 e2],
    z as [[]|[]| |[] m3 e3]; simpl; intros H1 H2; try congruence;
    injection H1 as H1; injection H2 as H2; f_equal; subst c; sf_comparacoes.
Qed.

Lemma ltb_compare (x y : float) : (x <? y)%float = true ↔ fcompare x y = Some Lt.
Proof.
  rewrite FloatAxioms.ltb_spec. unfold SFltb, fcompare.
  destruct (SFcompare _ _) as [[]|]; split; congruence.
Qed.

Lemma leb_compare (x y : float) :
  (x <=? y)%float = true ↔ fcompare x y = Some Lt ∨ fcompare x y = Some Eq.
Proof.
  rewrite FloatAxioms.leb_spec. unfold SFleb, fcompare.
  destruct (SFcompare _ _) as [[]|]; split; intros H; try done; try (by left);
    try (by right); destruct H; congruence.
Qed.

Lemma is_nan_Prim2SF (x : float) : is_nan x = true ↔ Prim2SF x = S754_nan.
Proof.
  unfold is_nan. rewrite FloatAxioms.eqb_spec. unfold SFeqb. split.
  - intros H. destruct (Prim2SF x) eqn:E; try done;
      rewrite SFcompare_refl in H; done.
  - intros ->. reflexivity.
Qed.

Lemma is_nan_false (x : float) : is_nan x = false ↔ Prim2SF x ≠ S754_nan.
Proof.
  split.
  - intros H E%is_nan_Prim2SF. congruence.
  - intros H. destruct (is_nan x) eqn:E; [|done].
    apply is_nan_Prim2SF in E. done.
Qed.

Lemma ltb_trans (x y z : float) :
  (x <? y)%float = true → (y <? z)%float = true → (x <? z)%float = true.
Proof. rewrite !ltb_compare. apply SFcompare_trans. Qed.

Lemma leb_refl (x : float) : is_nan x = false → (x <=? x)%float = true.
Proof.
  intros H%is_nan_false. apply leb_compare. right. by apply SFcompare_refl.
Qed.

Lemma ltb_false_leb (x y : float) :
  is_nan x = false → is_nan y = false →
  (x <? y)%float = false → (y <=? x)%float = true.
Proof.
  intros Hx%is_nan_false Hy%is_nan_false H. apply leb_compare.
  unfold fcompare. rewrite SFcompare_antisym.
  destruct (SFcompare_total _ _ Hx Hy) as [c Hc].
  rewrite FloatAxioms.ltb_spec in H. unfold SFltb in H. rewrite Hc in *.
  destruct c; simpl; auto. done.
Qed.

Lemma leb_ltb_false (x y : float) :
  (x <=? y)%float = true → (y <? x)%float = false.
Proof.
  intros H%leb_compare. rewrite FloatAxioms.ltb_spec. unfold SFltb, fcompare in *.
  rewrite SFcompare_antisym. destruct H as [-> | ->]; done.
Qed.

Lemma ltb_leb (x y : float) : (x <? y)%float = true → (x <=? y)%float = true.
Proof. intros H%ltb_compare. apply leb_compare. by left. Qed.

Lemma SFcompare_Eq_l (x y z : spec_float) (c : comparison) :
  SFcompare x y = Some Eq → SFcompare y z = Some c → SFcompare x z = Some c.
Proof.
  destruct x as [[]|[]| |[] m1 e1], y as [[]|[]| |[] m2 e2],
    z as [[]|[]| |[] m3 e3]; simpl; intros H1 H2; try congruence;
    injection H1 as H1; injection H2 as H2; f_equal; subst c; sf_comparacoes.
Qed.

Lemma SFcompare_Eq_r (x y z : spec_float) (c : comparison) :
  SFcompare x y = Some c → SFcompare y z = Some Eq → SFcompare x z = Some c.
Proof.
  destruct x as [[]|[]| |[] m1 e1], y as [[]|[]| |[] m2 e2],
    z as [[]|[]| |[] m3 e3]; simpl; intros H1 H2; try congruence;
    injection H1 as H1; injection H2 as H2; f_equal; subst c; sf_comparacoes.
Qed.

Lemma leb_trans (x y z : float) :
  (x <=? y)%float = true → (y <=? z)%float = true → (x <=? z)%float = true.
Proof.
  rewrite !leb_compare. unfold fcompare.
  intros [H1 | H1] [H2 | H2].
  - left. by apply (SFcompare_trans _ (Prim2SF y)).
  - left. by apply (SFcompare_Eq_r _ (Prim2SF y)).
  - left. by apply (SFcompare_Eq_l _ (Prim2SF y)).
  - right. by apply (SFcompare_Eq_l _ (Prim2SF y)).
Qed.

Lemma ltb_nan_l (x y : float) : is_nan x = true → (x <? y)%float = false.
Proof. intros H%is_nan_Prim2SF. rewrite FloatAxioms.ltb_spec, H. reflexivity. Qed.

Lemma ltb_nan_r (x y : float) : is_nan y = true → (x <? y)%float = false.
Proof.
  intros H%is_nan_Prim2SF. rewrite FloatAxioms.ltb_spec, H. unfold SFltb.
  by destruct (Prim2SF x).
Qed.

Lemma leb_not_nan (x y : float) :
  (x <=? y)%float = true → is_nan x = false ∧ is_nan y = false.
Proof.
  rewrite FloatAxioms.leb_spec. unfold SFleb. rewrite !is_nan_false.
  destruct (Prim2SF x), (Prim2SF y); simpl; try done.
Qed.

